(** * Verification of [synchronizer/synchro_class.py] (DatabaseSynchronizer)

    Shallow embedding of the one-way table synchroniser: schema reflection
    through SQLAlchemy [Table(..., autoload_with=...)], the column diff
    [get_table_differences], the row reconciliation [synchronize_table]
    and the orchestrator [synchronize_database].

    Modelling choices:
    - a database is an association list from table names to tables, in the
      order the store reflects them; a table carries its reflected columns
      and its rows;
    - a row is an association list from column names to scalar values; a
      [SELECT] returns the stored rows in list order, so [.first()] is the
      head of the filtered list;
    - a [MetaData] collection is the list of table names registered in it
      (schemas are read from the database each time);
    - exceptions are the [Err] branch of a state-and-error monad whose state
      holds both databases, both metadata collections and the log;
    - the store's own acceptance of an [INSERT] (constraints, availability)
      and the target's acceptance of a [CREATE TABLE] are parameters
      [insert_ok] and [create_ok] of the model. *)

From Stdlib Require Import String List Bool ZArith Lia.
Import ListNotations.
Open Scope string_scope.

(** ** Data model *)

Inductive value : Type :=
| VInt (z : Z)
| VStr (s : string)
| VNull.

Definition value_eqb (a b : value) : bool :=
  match a, b with
  | VInt x, VInt y => Z.eqb x y
  | VStr x, VStr y => String.eqb x y
  | VNull, VNull => true
  | _, _ => false
  end.

(** A column of a stored table: the attributes the code reads or passes
    on, and two ([foreign_key], [comment]) that the provisioning does not
    copy. [col_unique] and [col_index] say that the database has a [UNIQUE]
    constraint or an index on the column alone. *)
Record column : Type := mkColumn {
  col_name : string;
  col_type : string;            (* [str(column.type)] *)
  col_primary_key : bool;
  col_nullable : bool;
  col_unique : bool;
  col_index : bool;
  col_default : option string;
  col_server_default : option string;
  col_foreign_key : option string;  (* the table its foreign key refers to *)
  col_comment : option string
}.

Definition row : Type := list (string * value).

Record table : Type := mkTable {
  tbl_columns : list column;
  tbl_rows : list row
}.

Definition db : Type := list (string * table).

Fixpoint assoc {A : Type} (k : string) (l : list (string * A)) : option A :=
  match l with
  | [] => None
  | (k', v) :: l' => if String.eqb k k' then Some v else assoc k l'
  end.

(** [inspector.has_table] *)
Definition has_table (d : db) (name : string) : bool :=
  match assoc name d with Some _ => true | None => false end.

(** Replace the rows of an existing table (a committed transaction). *)
Fixpoint set_rows (name : string) (rs : list row) (d : db) : db :=
  match d with
  | [] => []
  | (n, t) :: d' =>
      if String.eqb name n then (n, mkTable (tbl_columns t) rs) :: d'
      else (n, t) :: set_rows name rs d'
  end.

(** [getattr(row, col)] on a fetched row. *)
Definition getattr (r : row) (c : string) : option value := assoc c r.

(** ** Errors and log *)

Inductive error : Type :=
| NoSuchTableError (table_name : string)
| AttributeError (attr : string)
| CompileError (attr : string)      (* [insert().values] with an unknown column *)
| IntegrityError (table_name : string)
| ProgrammingError (table_name : string).  (* [create_all] refused by the target *)

Record differences : Type := mkDifferences {
  new_columns : list string;
  modified_columns : list string;
  removed_columns : list string
}.

Inductive log_entry : Type :=
| LogStart (table_name : string)                      (* LOG.info line 145 *)
| LogWarnDiff (table_name : string) (d : differences) (* LOG.warning line 149 *)
| LogRowDiffers (key : list (string * value))         (* LOG.info line 111 *)
| LogRowAdded (key : list (string * value))           (* LOG.info line 121 *)
| LogSynced (table_name : string)                     (* LOG.info line 126 *)
| LogError (table_name : string) (e : error).         (* LOG.error line 130 *)

Record state : Type := mkState {
  source_db : db;
  target_db : db;
  source_metadata : list string;
  target_metadata : list string;
  log : list log_entry
}.

Definition with_target (s : state) (d : db) : state :=
  mkState (source_db s) d (source_metadata s) (target_metadata s) (log s).
Definition with_source_metadata (s : state) (m : list string) : state :=
  mkState (source_db s) (target_db s) m (target_metadata s) (log s).
Definition with_target_metadata (s : state) (m : list string) : state :=
  mkState (source_db s) (target_db s) (source_metadata s) m (log s).
Definition add_log (s : state) (e : log_entry) : state :=
  mkState (source_db s) (target_db s) (source_metadata s) (target_metadata s)
          (log s ++ [e]).

(** ** A state-and-exception monad *)

Inductive result (A : Type) : Type :=
| Ok (a : A)
| Err (e : error).
Arguments Ok {A} a.
Arguments Err {A} e.

Definition M (A : Type) : Type := state -> state * result A.

Definition ret {A : Type} (a : A) : M A := fun s => (s, Ok a).
Definition raise {A : Type} (e : error) : M A := fun s => (s, Err e).
Definition bind {A B : Type} (m : M A) (k : A -> M B) : M B :=
  fun s => match m s with
           | (s', Ok a) => k a s'
           | (s', Err e) => (s', Err e)
           end.
Definition get : M state := fun s => (s, Ok s).
Definition modify (f : state -> state) : M unit := fun s => (f s, Ok tt).
Definition info (e : log_entry) : M unit := modify (fun s => add_log s e).

Notation "x <- m ;; k" := (bind m (fun x => k))
  (at level 61, m at next level, right associativity).
Notation "m ;;; k" := (bind m (fun _ => k))
  (at level 61, right associativity).

(** ** Reflection: [Table(name, metadata, autoload_with=engine)]

    On success the table is registered in the metadata collection (once),
    together with the tables its foreign keys lead to; on
    [NoSuchTableError] SQLAlchemy removes it again, so the collection is
    unchanged. *)

Definition register (name : string) (md : list string) : list string :=
  if existsb (String.eqb name) md then md else md ++ [name].

(** A reflected [Column]: name, type, primary-key flag, nullability and
    server default come from the database; a [UNIQUE] constraint or an
    index is reflected as a table-level [UniqueConstraint] or [Index], so
    [Column.unique] and [Column.index] stay [None] (false here); a database
    holds no client-side default, so [Column.default] is [None]. *)
Definition reflect_column (c : column) : column :=
  mkColumn (col_name c) (col_type c) (col_primary_key c) (col_nullable c)
           false false None (col_server_default c) (col_foreign_key c) (col_comment c).

(** The tables the foreign keys of a table refer to. *)
Definition referred_tables (cols : list column) : list string :=
  flat_map (fun c => match col_foreign_key c with Some r => [r] | None => [] end) cols.

(** The registrations of one reflection with the default [resolve_fks=True]:
    a name already in the collection is taken from it and nothing is
    reflected; otherwise the table is registered, then each table its
    foreign keys refer to is reflected the same way, depth first. A
    referred name the database lacks is passed over (a stored foreign key
    refers to a table of the same database). [fuel] bounds the visits. *)
Fixpoint register_reflected (fuel : nat) (d : db) (todo md : list string)
  : list string :=
  match fuel, todo with
  | O, _ | _, [] => md
  | S f, n :: rest =>
      if existsb (String.eqb n) md then register_reflected f d rest md
      else match assoc n d with
           | Some t => register_reflected f d (referred_tables (tbl_columns t) ++ rest)
                                          (md ++ [n])
           | None => register_reflected f d rest md
           end
  end.

(** One visit per table name to reflect, each table registered at most
    once and each of its foreign keys followed once. *)
Definition reflection_fuel (d : db) : nat :=
  S (fold_right (fun p n => S (length (referred_tables (tbl_columns (snd p)))) + n) 0 d).

Definition reflect_md (d : db) (name : string) (md : list string) : list string :=
  register_reflected (reflection_fuel d) d [name] md.

Definition reflect_source (name : string) : M (list column) :=
  fun s => match assoc name (source_db s) with
           | Some t => (with_source_metadata s
                          (reflect_md (source_db s) name (source_metadata s)),
                        Ok (map reflect_column (tbl_columns t)))
           | None => (s, Err (NoSuchTableError name))
           end.

Definition reflect_target (name : string) : M (list column) :=
  fun s => match assoc name (target_db s) with
           | Some t => (with_target_metadata s
                          (reflect_md (target_db s) name (target_metadata s)),
                        Ok (map reflect_column (tbl_columns t)))
           | None => (s, Err (NoSuchTableError name))
           end.

(** ** [get_table_differences] *)

(** Python dict assignment [d[k] = v]: an existing key keeps its position
    and takes the new value; a new key is appended. *)
Fixpoint dict_set {A : Type} (k : string) (v : A) (d : list (string * A))
  : list (string * A) :=
  match d with
  | [] => [(k, v)]
  | (k', v') :: d' =>
      if String.eqb k k' then (k', v) :: d' else (k', v') :: dict_set k v d'
  end.

(** [{c.name: c for c in table.columns}] *)
Definition columns_dict (cols : list column) : list (string * column) :=
  fold_left (fun d c => dict_set (col_name c) c d) cols [].

Definition in_dict {A : Type} (k : string) (d : list (string * A)) : bool :=
  existsb (fun p => String.eqb k (fst p)) d.

(** Lines 38-51: the two loops, each appending to a result list. *)
Definition table_differences (source_table target_table : list column)
  : differences :=
  let source_columns := columns_dict source_table in
  let target_columns := columns_dict target_table in
  mkDifferences
    (map fst (filter (fun p => negb (in_dict (fst p) target_columns))
                     source_columns))
    (map fst (filter (fun p =>
                        match assoc (fst p) target_columns with
                        | None => false
                        | Some tc => negb (String.eqb (col_type (snd p))
                                                     (col_type tc))
                        end) source_columns))
    (map fst (filter (fun p => negb (in_dict (fst p) source_columns))
                     target_columns)).

Definition get_table_differences (table_name : string) : M differences :=
  source_table <- reflect_source table_name ;;
  target_table <- reflect_target table_name ;;
  ret (table_differences source_table target_table).

(** [any(differences.values())] *)
Definition any_differences (d : differences) : bool :=
  negb (match new_columns d, modified_columns d, removed_columns d with
        | [], [], [] => true
        | _, _, _ => false
        end).

(** ** [synchronize_table] *)

Definition lift {A : Type} (r : result A) : M A :=
  fun s => (s, r).

(** [Column(column.name, column.type, primary_key=..., nullable=...,
    unique=..., index=..., default=..., server_default=...)], lines 67-76:
    foreign keys and comments are not passed on. *)
Definition copy_column (c : column) : column :=
  mkColumn (col_name c) (col_type c) (col_primary_key c) (col_nullable c)
           (col_unique c) (col_index c) (col_default c) (col_server_default c)
           None None.

(** The target after a successful [metadata_target.create_all] (line 78),
    which runs in its own implicit transaction, committed at once. *)
Definition provisioned_db (d : db) (table_name : string) (source_table : list column)
  : db :=
  if has_table d table_name then d
  else app d [(table_name, mkTable (map copy_column source_table) [])].

Definition table_rows (d : db) (name : string) : list row :=
  match assoc name d with Some t => tbl_rows t | None => [] end.

Definition has_column (cols : list column) (c : string) : bool :=
  existsb (fun col => String.eqb c (col_name col)) cols.

(** Lines 90-93: [and_] of [getattr(target_table.c, col) == getattr(source_row, col)
    for col in primary_key_columns]; the condition is kept as the list of
    its equalities. *)
Fixpoint primary_key_condition (target_table : list column) (source_row : row)
  (primary_key_columns : list string) : result (list (string * value)) :=
  match primary_key_columns with
  | [] => Ok []
  | col :: cols =>
      if negb (has_column target_table col) then Err (AttributeError col)
      else match getattr source_row col with
           | None => Err (AttributeError col)
           | Some v =>
               match primary_key_condition target_table source_row cols with
               | Ok rest => Ok ((col, v) :: rest)
               | Err e => Err e
               end
           end
  end.

(** The [WHERE] clause evaluated on a stored row: SQLAlchemy renders
    [col == None] as [col IS NULL], so [NULL] matches [NULL]. *)
Definition condition_holds (cond : list (string * value)) (r : row) : bool :=
  forallb (fun p => match getattr r (fst p) with
                    | Some v => value_eqb v (snd p)
                    | None => false
                    end) cond.

(** Lines 100-103: [all(...)] stops at the first mismatch. *)
Fixpoint records_match (source_row existing_record : row) (all_columns : list string)
  : result bool :=
  match all_columns with
  | [] => Ok true
  | col :: cols =>
      match getattr source_row col with
      | None => Err (AttributeError col)
      | Some a =>
          match getattr existing_record col with
          | None => Err (AttributeError col)
          | Some b => if value_eqb a b then records_match source_row existing_record cols
                      else Ok false
          end
      end
  end.

(** [{col: getattr(source_row, col) for col in all_columns}] *)
Fixpoint record_values (source_row : row) (cols : list string) (acc : row)
  : result row :=
  match cols with
  | [] => Ok acc
  | col :: cols' =>
      match getattr source_row col with
      | None => Err (AttributeError col)
      | Some v => record_values source_row cols' (dict_set col v acc)
      end
  end.

Definition new_record (source_row : row) (all_columns : list string) : result row :=
  record_values source_row all_columns [].

Section Synchronizer.

(** The target store's acceptance of an [INSERT] of a row into a table with
    the given columns and current rows (its own constraints). *)
Variable insert_ok : list column -> list row -> row -> bool.

(** The target store's acceptance of a [CREATE TABLE] of the given table
    with the given columns (it may refuse one, e.g. for a reflected server
    default [nextval('users_id_seq'::regclass)] naming a sequence the target
    lacks). *)
Variable create_ok : db -> string -> list column -> bool.

(** Lines 61-78: [inspector.has_table], then [create_all]; a refused
    [CREATE TABLE] raises and creates nothing. *)
Definition ensure_target_table (table_name : string) (source_table : list column)
  : M unit :=
  fun s =>
    if has_table (target_db s) table_name then (s, Ok tt)
    else if create_ok (target_db s) table_name (map copy_column source_table)
    then (with_target s (provisioned_db (target_db s) table_name source_table), Ok tt)
    else (s, Err (ProgrammingError table_name)).

(** [target_conn.execute(target_table.insert().values(new_record))]: a key
    that is not a target column is refused when the statement is compiled;
    target columns absent from the record are stored as [NULL]. *)
Definition insert_row (table_name : string) (target_table : list column)
  (trs : list row) (record : row) : result (list row) :=
  match find (fun p => negb (has_column target_table (fst p))) record with
  | Some (k, _) => Err (CompileError k)
  | None =>
      let stored := map (fun c => (col_name c,
                                   match assoc (col_name c) record with
                                   | Some v => v
                                   | None => VNull
                                   end)) target_table in
      if insert_ok target_table trs stored then Ok (app trs [stored])
      else Err (IntegrityError table_name)
  end.

(** Lines 90-123, one source row; [trs] are the target rows as the open
    transaction sees them. A fetched [Row] is truthy when it has a column. *)
Definition sync_row (table_name : string) (target_table : list column)
  (primary_key_columns all_columns : list string) (trs : list row)
  (source_row : row) : M (list row) :=
  cond <- lift (primary_key_condition target_table source_row primary_key_columns) ;;
  match find (condition_holds cond) trs with
  | Some ((_ :: _) as existing_record) =>
      m <- lift (records_match source_row existing_record all_columns) ;;
      if m then ret trs
      else (record <- lift (new_record source_row all_columns) ;;
            trs' <- lift (insert_row table_name target_table trs record) ;;
            info (LogRowDiffers cond) ;;;
            ret trs')
  | _ =>
      record <- lift (new_record source_row all_columns) ;;
      trs' <- lift (insert_row table_name target_table trs record) ;;
      info (LogRowAdded cond) ;;;
      ret trs'
  end.

Fixpoint sync_rows (table_name : string) (target_table : list column)
  (primary_key_columns all_columns : list string) (trs : list row)
  (source_data : list row) : M (list row) :=
  match source_data with
  | [] => ret trs
  | source_row :: rest =>
      trs' <- sync_row table_name target_table primary_key_columns all_columns
                       trs source_row ;;
      sync_rows table_name target_table primary_key_columns all_columns trs' rest
  end.

(** Lines 60-126, the body of the [try]. The row writes are held in the
    open transaction and reach [target_db] only at [commit()]. *)
Definition synchronize_table_body (table_name : string) : M unit :=
  source_table <- reflect_source table_name ;;
  ensure_target_table table_name source_table ;;;
  target_table <- reflect_target table_name ;;
  s <- get ;;
  let source_data := table_rows (source_db s) table_name in
  let primary_key_columns := map col_name (filter col_primary_key source_table) in
  let all_columns := map col_name source_table in
  trs <- sync_rows table_name target_table primary_key_columns all_columns
                   (table_rows (target_db s) table_name) source_data ;;
  modify (fun s' => with_target s' (set_rows table_name trs (target_db s'))) ;;;
  info (LogSynced table_name).

(** Lines 59-131: [except Exception as e: LOG.error(...); raise]. *)
Definition synchronize_table (table_name : string) : M unit :=
  fun s =>
    match synchronize_table_body table_name s with
    | (s', Err e) => (add_log s' (LogError table_name e), Err e)
    | (s', Ok u) => (s', Ok u)
    end.

(** ** [synchronize_database] *)

Definition process_table (table_name : string) : M unit :=
  info (LogStart table_name) ;;;
  differences <- get_table_differences table_name ;;
  (if any_differences differences
   then info (LogWarnDiff table_name differences) else ret tt) ;;;
  synchronize_table table_name.

Fixpoint synchronize_tables (tables : list string) : M unit :=
  match tables with
  | [] => ret tt
  | table_name :: rest => process_table table_name ;;; synchronize_tables rest
  end.

(** [self.source_metadata.reflect(bind=...)] then
    [list(self.source_metadata.tables.keys())]: already registered tables
    keep their place, the others are appended in reflection order. *)
Definition reflect_all : M (list string) :=
  fun s =>
    let md := fold_left (fun md n => register n md) (map fst (source_db s))
                        (source_metadata s) in
    (with_source_metadata s md, Ok md).

Definition synchronize_database (tables : option (list string)) : M unit :=
  match tables with
  | None => ts <- reflect_all ;; synchronize_tables ts
  | Some ts => synchronize_tables ts
  end.

End Synchronizer.

(** ** Two target stores *)

(** A store that accepts every insert. *)
Definition accept_all (_ : list column) (_ : list row) (_ : row) : bool := true.

(** A target that accepts every [CREATE TABLE], and one that refuses all. *)
Definition create_all_ok (_ : db) (_ : string) (_ : list column) : bool := true.
Definition create_refused (_ : db) (_ : string) (_ : list column) : bool := false.

(** A store that enforces the table's primary key. *)
Definition pk_store (cols : list column) (trs : list row) (r : row) : bool :=
  match map col_name (filter col_primary_key cols) with
  | [] => true
  | pks => negb (existsb (fun t =>
             forallb (fun c => match getattr t c, getattr r c with
                               | Some a, Some b => value_eqb a b
                               | _, _ => false
                               end) pks) trs)
  end.

(** The column structure of a table, if present. *)
Definition schema_of (d : db) (name : string) : option (list column) :=
  option_map tbl_columns (assoc name d).

Definition table_columns (d : db) (name : string) : list column :=
  match assoc name d with Some t => tbl_columns t | None => [] end.

(** Two states that differ at most in their log. *)
Definition same_stores (s s' : state) : Prop :=
  source_db s' = source_db s /\ target_db s' = target_db s /\
  source_metadata s' = source_metadata s /\ target_metadata s' = target_metadata s.

(** The tables whose processing was started, read off the log. *)
Fixpoint started (l : list log_entry) : list string :=
  match l with
  | [] => []
  | LogStart t :: l' => t :: started l'
  | _ :: l' => started l'
  end.

(** The log grows by entries that start no table. *)
Definition quiet_growth (s s' : state) : Prop :=
  exists ext, log s' = app (log s) ext /\ started ext = [].

(** The metadata collections name only tables of their database, each
    once. *)
Definition metadata_ok (s : state) : Prop :=
  incl (source_metadata s) (map fst (source_db s)) /\
  incl (target_metadata s) (map fst (target_db s)) /\
  NoDup (source_metadata s) /\ NoDup (target_metadata s).

(** The number of row writes a log reports (lines 111 and 121). *)
Definition row_writes (l : list log_entry) : nat :=
  length (filter (fun e => match e with
                           | LogRowDiffers _ | LogRowAdded _ => true
                           | _ => false
                           end) l).

(** ** Sample tables *)

Definition c_id : column := mkColumn "id" "INTEGER" true false false false None None None None.
Definition c_name : column := mkColumn "name" "TEXT" false true false false None None None None.
Definition c_email : column := mkColumn "email" "TEXT" false true false false None None None None.
Definition c_a : column := mkColumn "a" "INTEGER" true false false false None None None None.
Definition c_b : column := mkColumn "b" "INTEGER" true false false false None None None None.
Definition c_v : column := mkColumn "v" "TEXT" false true false false None None None None.
Definition c_x : column := mkColumn "x" "INTEGER" false true false false None None None None.

Definition user_row (i : Z) (n : string) : row := [("id", VInt i); ("name", VStr n)].
Definition users : table := mkTable [c_id; c_name] [user_row 1 "a"; user_row 2 "b"].

Definition ex_users_email : table := mkTable [c_id; c_name; c_email] [].


(** A table with a foreign key to table [p]. *)
Definition c_p_id : column := mkColumn "p_id" "INTEGER" false true false false None None (Some "p") None.
Definition orders : table := mkTable [c_id; c_p_id] [].

(** A source table without a primary key holding two equal rows. *)
Definition dup_rows : table := mkTable [c_x] [[("x", VInt 1)]; [("x", VInt 1)]].

(** A store that refuses every insert (unavailable, or a constraint). *)
Definition reject_all (_ : list column) (_ : list row) (_ : row) : bool := false.

Definition fresh_state (src tgt : db) : state := mkState src tgt [] [] [].

(** * Properties *)

From Stdlib Require Import Permutation.
Open Scope list_scope.

(** ** Lists and dictionaries *)

Lemma nil_of_no_member {A : Type} (l : list A) :
  (forall x, ~ In x l) -> l = [].
Proof. destruct l as [|a l]; [reflexivity|]. intros H. exfalso. apply (H a). now left. Qed.

(** Keeping some entries of a list with distinct keys keeps them distinct. *)
Lemma NoDup_map_filter {X Y : Type} (key : X -> Y) (keep : X -> bool) (xs : list X) :
  NoDup (map key xs) -> NoDup (map key (filter keep xs)).
Proof.
  induction xs as [|x xs IH]; simpl; intros H; [constructor|].
  inversion H as [|? ? Hn Hd]; subst.
  destruct (keep x); simpl; [constructor|]; auto.
  intros Hin. apply Hn. apply in_map_iff in Hin as (y & Hy & Hin).
  apply filter_In in Hin as [Hin _]. rewrite <- Hy. now apply in_map.
Qed.

Lemma NoDup_map_inj_in {A B : Type} (f : A -> B) (l : list A) a b :
  NoDup (map f l) -> In a l -> In b l -> f a = f b -> a = b.
Proof.
  induction l as [|x l IH]; simpl; [tauto|]. intros H Ha Hb Hf.
  inversion H as [|? ? Hn Hd]; subst.
  destruct Ha as [<-|Ha], Hb as [<-|Hb]; auto.
  - exfalso. apply Hn. rewrite Hf. now apply in_map.
  - exfalso. apply Hn. rewrite <- Hf. now apply in_map.
Qed.

Lemma dict_set_fresh {A : Type} k (v : A) d :
  ~ In k (map fst d) -> dict_set k v d = d ++ [(k, v)].
Proof.
  induction d as [|[k' v'] d IH]; simpl; [reflexivity|]. intros Hn.
  destruct (String.eqb_spec k k') as [->|Hne].
  - exfalso. apply Hn. now left.
  - rewrite IH; auto.
Qed.

Lemma columns_dict_fold cols d :
  NoDup (map fst d ++ map col_name cols) ->
  fold_left (fun d c => dict_set (col_name c) c d) cols d
  = d ++ map (fun c => (col_name c, c)) cols.
Proof.
  revert d. induction cols as [|c cols IH]; intros d H; simpl.
  - now rewrite app_nil_r.
  - rewrite dict_set_fresh.
    + rewrite IH.
      * now rewrite <- app_assoc.
      * rewrite map_app. simpl. now rewrite <- app_assoc.
    + intros Hin. simpl in H. apply NoDup_remove_2 in H.
      apply H. apply in_or_app. now left.
Qed.

(** For a table (whose column names are distinct) the dictionary lists the
    columns in order. *)
Lemma columns_dict_nodup cols :
  NoDup (map col_name cols) ->
  columns_dict cols = map (fun c => (col_name c, c)) cols.
Proof. intros H. unfold columns_dict. now rewrite columns_dict_fold. Qed.

Lemma map_fst_pairs cols :
  map fst (map (fun c => (col_name c, c)) cols) = map col_name cols.
Proof. rewrite map_map. reflexivity. Qed.

Lemma in_dict_pairs x cols :
  in_dict x (map (fun c => (col_name c, c)) cols) = true <-> In x (map col_name cols).
Proof.
  unfold in_dict. rewrite existsb_exists. split.
  - intros (p & Hp & He). apply String.eqb_eq in He. subst.
    rewrite <- map_fst_pairs. now apply in_map.
  - intros Hin. apply in_map_iff in Hin as (c & <- & Hc).
    exists (col_name c, c). split; [apply in_map_iff; now exists c|].
    apply String.eqb_refl.
Qed.

Lemma assoc_pairs x cols c :
  NoDup (map col_name cols) ->
  assoc x (map (fun c => (col_name c, c)) cols) = Some c <-> In c cols /\ col_name c = x.
Proof.
  induction cols as [|c' cols IH]; simpl; intros H; [split; [discriminate|tauto]|].
  inversion H as [|? ? Hn Hd]; subst.
  destruct (String.eqb_spec x (col_name c')) as [->|Hne].
  - split.
    + intros [= <-]. auto.
    + intros [[<-|Hin] Hx]; [reflexivity|].
      exfalso. apply Hn. rewrite <- Hx. now apply in_map.
  - rewrite IH by assumption. split; [tauto|].
    intros [[<-|Hin] Hx]; [congruence|auto].
Qed.

Lemma not_in_dict_pairs x cols :
  negb (in_dict x (map (fun c => (col_name c, c)) cols)) = true
  <-> ~ In x (map col_name cols).
Proof.
  rewrite negb_true_iff, <- in_dict_pairs.
  destruct (in_dict x _); split; congruence.
Qed.

Lemma in_pairs_iff (p : string * column) cols :
  In p (map (fun c => (col_name c, c)) cols) <-> In (snd p) cols /\ fst p = col_name (snd p).
Proof.
  rewrite in_map_iff. split.
  - intros (c & <- & Hc). simpl. auto.
  - destruct p as [k c]; simpl. intros [Hc ->]. now exists c.
Qed.

(** The diff of two column lists with distinct names, as three sets. *)
Lemma table_differences_spec (src tgt : list column) :
  NoDup (map col_name src) -> NoDup (map col_name tgt) ->
  let d := table_differences src tgt in
  (forall x, In x (new_columns d) <->
             In x (map col_name src) /\ ~ In x (map col_name tgt)) /\
  (forall x, In x (modified_columns d) <->
             exists cs ct, In cs src /\ In ct tgt /\ col_name cs = x /\
                           col_name ct = x /\ col_type cs <> col_type ct) /\
  (forall x, In x (removed_columns d) <->
             In x (map col_name tgt) /\ ~ In x (map col_name src)) /\
  NoDup (new_columns d) /\ NoDup (modified_columns d) /\ NoDup (removed_columns d).
Proof.
  intros Hs Ht d. subst d. unfold table_differences.
  rewrite (columns_dict_nodup src Hs), (columns_dict_nodup tgt Ht). simpl.
  split; [|split; [|split; [|split; [|split]]]].
  - intros x. rewrite in_map_iff. split.
    + intros (p & <- & Hp). apply filter_In in Hp as [Hp Hf].
      apply not_in_dict_pairs in Hf. split; [|exact Hf].
      rewrite <- map_fst_pairs. now apply in_map.
    + intros [Hin Hnin]. rewrite <- map_fst_pairs, in_map_iff in Hin.
      destruct Hin as (p & <- & Hp). exists p. split; [reflexivity|].
      apply filter_In. split; [exact Hp|]. now apply not_in_dict_pairs.
  - intros x. rewrite in_map_iff. split.
    + intros (p & <- & Hp). apply filter_In in Hp as [Hp Hf].
      apply in_pairs_iff in Hp as [Hcs Hk].
      destruct (assoc (fst p) _) as [ct|] eqn:Ha; [|discriminate].
      apply assoc_pairs in Ha as [Hct Hn]; [|exact Ht].
      exists (snd p), ct. repeat split; auto.
      apply negb_true_iff, String.eqb_neq in Hf. exact Hf.
    + intros (cs & ct & Hcs & Hct & Hn1 & Hn2 & Hty).
      exists (col_name cs, cs). split; [auto|].
      apply filter_In. split; [apply in_pairs_iff; simpl; auto|]. simpl.
      assert (Ha : assoc (col_name cs) (map (fun c => (col_name c, c)) tgt) = Some ct)
        by (apply assoc_pairs; [exact Ht| split; congruence]).
      rewrite Ha. apply negb_true_iff, String.eqb_neq. exact Hty.
  - intros x. rewrite in_map_iff. split.
    + intros (p & <- & Hp). apply filter_In in Hp as [Hp Hf].
      apply not_in_dict_pairs in Hf. split; [|exact Hf].
      rewrite <- map_fst_pairs. now apply in_map.
    + intros [Hin Hnin]. rewrite <- map_fst_pairs, in_map_iff in Hin.
      destruct Hin as (p & <- & Hp). exists p. split; [reflexivity|].
      apply filter_In. split; [exact Hp|]. now apply not_in_dict_pairs.
  - apply NoDup_map_filter. now rewrite map_fst_pairs.
  - apply NoDup_map_filter. now rewrite map_fst_pairs.
  - apply NoDup_map_filter. now rewrite map_fst_pairs.
Qed.

Lemma table_differences_perm (src tgt : list column) :
  NoDup (map col_name src) -> Permutation src tgt ->
  table_differences src tgt = mkDifferences [] [] [].
Proof.
  intros Hs Hp.
  assert (Ht : NoDup (map col_name tgt))
    by (apply (Permutation_NoDup (Permutation_map col_name Hp)); exact Hs).
  destruct (table_differences_spec src tgt Hs Ht) as (Hn & Hm & Hr & _).
  assert (Hnames : forall x, In x (map col_name src) <-> In x (map col_name tgt)).
  { intros x. split; apply Permutation_in;
      [|apply Permutation_sym]; now apply Permutation_map. }
  destruct (table_differences src tgt) as [n m r]; simpl in *.
  f_equal; apply nil_of_no_member; intros x Hx.
  - apply Hn in Hx as [H1 H2]. apply H2, Hnames, H1.
  - apply Hm in Hx as (cs & ct & Hcs & Hct & H1 & H2 & H3). apply H3.
    assert (cs = ct) as ->; [|reflexivity].
    apply (NoDup_map_inj_in col_name tgt); auto; [|congruence].
    apply (Permutation_in _ Hp Hcs).
  - apply Hr in Hx as [H1 H2]. apply H2, Hnames, H1.
Qed.

(** ** Reflection *)

Lemma dict_set_map (f : column -> column) k c d :
  dict_set k (f c) (map (fun p => (fst p, f (snd p))) d)
  = map (fun p => (fst p, f (snd p))) (dict_set k c d).
Proof.
  induction d as [|[k' c'] d IH]; simpl; [reflexivity|].
  destruct (String.eqb k k'); simpl; [reflexivity|now rewrite IH].
Qed.

Lemma columns_dict_fold_map (f : column -> column) cols d :
  (forall c, col_name (f c) = col_name c) ->
  fold_left (fun d c => dict_set (col_name c) c d) (map f cols)
            (map (fun p => (fst p, f (snd p))) d)
  = map (fun p => (fst p, f (snd p)))
        (fold_left (fun d c => dict_set (col_name c) c d) cols d).
Proof.
  intros Hf. revert d. induction cols as [|c cols IH]; intros d; simpl; [reflexivity|].
  rewrite Hf, dict_set_map. apply IH.
Qed.

Lemma columns_dict_map (f : column -> column) cols :
  (forall c, col_name (f c) = col_name c) ->
  columns_dict (map f cols) = map (fun p => (fst p, f (snd p))) (columns_dict cols).
Proof. intros Hf. exact (columns_dict_fold_map f cols [] Hf). Qed.

Lemma in_dict_map {A : Type} (g : A -> A) k (d : list (string * A)) :
  in_dict k (map (fun p => (fst p, g (snd p))) d) = in_dict k d.
Proof. unfold in_dict. induction d as [|p d IH]; simpl; [reflexivity|]. now rewrite IH. Qed.

Lemma assoc_map {A : Type} (g : A -> A) k (d : list (string * A)) :
  assoc k (map (fun p => (fst p, g (snd p))) d) = option_map g (assoc k d).
Proof.
  induction d as [|[k' v] d IH]; simpl; [reflexivity|].
  destruct (String.eqb k k'); [reflexivity|exact IH].
Qed.

(** The diff reads only names and types, which reflection keeps. *)
Lemma table_differences_map (f : column -> column) src tgt :
  (forall c, col_name (f c) = col_name c) -> (forall c, col_type (f c) = col_type c) ->
  table_differences (map f src) (map f tgt) = table_differences src tgt.
Proof.
  intros Hn Ht. unfold table_differences. rewrite !(columns_dict_map f) by exact Hn.
  f_equal; rewrite filter_map_swap, map_map; simpl; f_equal; apply filter_ext;
    intros [k c]; simpl.
  - now rewrite in_dict_map.
  - rewrite assoc_map. destruct (assoc k _); simpl; [now rewrite !Ht|reflexivity].
  - now rewrite in_dict_map.
Qed.

Lemma table_differences_reflected src tgt :
  table_differences (map reflect_column src) (map reflect_column tgt)
  = table_differences src tgt.
Proof. apply table_differences_map; reflexivity. Qed.

Lemma get_table_differences_run st name ts tt :
  assoc name (source_db st) = Some ts -> assoc name (target_db st) = Some tt ->
  get_table_differences name st =
  (mkState (source_db st) (target_db st)
           (reflect_md (source_db st) name (source_metadata st))
           (reflect_md (target_db st) name (target_metadata st))
           (log st),
   Ok (table_differences (tbl_columns ts) (tbl_columns tt))).
Proof.
  intros Hs Ht. unfold get_table_differences, bind, reflect_source, reflect_target.
  rewrite Hs. simpl. rewrite Ht. unfold ret. now rewrite table_differences_reflected.
Qed.

(** C2 *)
(** [C2]: for a table present in both databases (column names distinct in
    each, as in any table), the diff is the three sets
    added = source names not in the target, modified = names in both whose
    [str(type)] differ, removed = target names not in the source; each is
    duplicate-free, and for schemas equal up to column order all three are
    empty. *)
Theorem get_table_differences_sets st name ts tt :
  assoc name (source_db st) = Some ts -> assoc name (target_db st) = Some tt ->
  NoDup (map col_name (tbl_columns ts)) -> NoDup (map col_name (tbl_columns tt)) ->
  exists d,
    snd (get_table_differences name st) = Ok d /\
    (forall x, In x (new_columns d) <->
               In x (map col_name (tbl_columns ts)) /\ ~ In x (map col_name (tbl_columns tt))) /\
    (forall x, In x (modified_columns d) <->
               exists cs ct, In cs (tbl_columns ts) /\ In ct (tbl_columns tt) /\
                             col_name cs = x /\ col_name ct = x /\ col_type cs <> col_type ct) /\
    (forall x, In x (removed_columns d) <->
               In x (map col_name (tbl_columns tt)) /\ ~ In x (map col_name (tbl_columns ts))) /\
    NoDup (new_columns d) /\ NoDup (modified_columns d) /\ NoDup (removed_columns d) /\
    (Permutation (tbl_columns ts) (tbl_columns tt) -> d = mkDifferences [] [] []).
Proof.
  intros Hs Ht Hns Hnt.
  exists (table_differences (tbl_columns ts) (tbl_columns tt)).
  rewrite (get_table_differences_run st name ts tt Hs Ht). split; [reflexivity|].
  destruct (table_differences_spec _ _ Hns Hnt) as (H1 & H2 & H3 & H4 & H5 & H6).
  split; [exact H1|]. split; [exact H2|]. split; [exact H3|].
  split; [exact H4|]. split; [exact H5|]. split; [exact H6|].
  intros Hp. now apply table_differences_perm.
Qed.


Lemma get_table_differences_sets_witness :
  exists d, snd (get_table_differences "t"
                   (fresh_state [("t", ex_users_email)] [("t", users)])) = Ok d /\
            In "email" (new_columns d).
Proof.
  destruct (get_table_differences_sets
              (fresh_state [("t", ex_users_email)] [("t", users)]) "t"
              ex_users_email users eq_refl eq_refl)
    as (d & Hd & Hn & _).
  - repeat constructor; simpl; intuition discriminate.
  - repeat constructor; simpl; intuition discriminate.
  - exists d. split; [exact Hd|]. apply Hn. simpl. split; [tauto|].
    intuition discriminate.
Defined.

(** ** Running [synchronize_table] *)

Ltac split_matches :=
  repeat match goal with
         | |- context [match ?x with _ => _ end] =>
             let E := fresh "E" in destruct x eqn:E
         end.

Lemma same_stores_refl s : same_stores s s.
Proof. repeat split. Qed.

Lemma same_stores_trans s1 s2 s3 :
  same_stores s1 s2 -> same_stores s2 s3 -> same_stores s1 s3.
Proof. unfold same_stores. intros (?&?&?&?) (?&?&?&?). repeat split; congruence. Qed.

Lemma same_stores_add_log s e : same_stores s (add_log s e).
Proof. repeat split. Qed.

Create HintDb frame.
#[local] Hint Resolve same_stores_refl same_stores_add_log : frame.

Lemma sync_row_frame ok t tc pks cols trs r s :
  same_stores s (fst (sync_row ok t tc pks cols trs r s)).
Proof.
  unfold sync_row, bind, lift, info, modify, ret. split_matches; simpl; auto with frame.
Qed.

Lemma sync_rows_frame ok t tc pks cols trs rows s :
  same_stores s (fst (sync_rows ok t tc pks cols trs rows s)).
Proof.
  revert trs s. induction rows as [|r rows IH]; intros trs s; simpl.
  - apply same_stores_refl.
  - unfold bind. pose proof (sync_row_frame ok t tc pks cols trs r s) as H.
    destruct (sync_row ok t tc pks cols trs r s) as [s1 [trs1|e]]; simpl in *; auto.
    eapply same_stores_trans; [exact H|]. apply IH.
Qed.

Lemma provisioned_db_assoc d t cols :
  exists tb, assoc t (provisioned_db d t cols) = Some tb.
Proof.
  unfold provisioned_db, has_table. destruct (assoc t d) as [tb|] eqn:E.
  - now exists tb.
  - exists (mkTable (map copy_column cols) []). induction d as [|[n x] d IH]; simpl in *.
    + now rewrite String.eqb_refl.
    + destruct (String.eqb t n); [discriminate|auto].
Qed.

Lemma map_col_name_reflected cols :
  map col_name (map reflect_column cols) = map col_name cols.
Proof. rewrite map_map. reflexivity. Qed.

Lemma pk_names_reflected cols :
  map col_name (filter col_primary_key (map reflect_column cols))
  = map col_name (filter col_primary_key cols).
Proof. rewrite filter_map_swap, map_map. reflexivity. Qed.

Lemma ensure_target_table_ok cok t cols s :
  has_table (target_db s) t = true \/ cok (target_db s) t (map copy_column cols) = true ->
  ensure_target_table cok t cols s
  = (with_target s (provisioned_db (target_db s) t cols), Ok tt).
Proof.
  unfold ensure_target_table, provisioned_db. intros Hp.
  destruct (has_table (target_db s) t) eqn:Hh.
  - destruct s; reflexivity.
  - destruct Hp as [Hp|Hp]; [discriminate|]. now rewrite Hp.
Qed.

(** [synchronize_table] on a table present in the source, when the target
    has the table or accepts its creation: provisioning, then the row loop
    from the provisioned target, then commit or [LOG.error] and re-raise. *)
Lemma synchronize_table_run ok cok t ts st :
  assoc t (source_db st) = Some ts ->
  has_table (target_db st) t = true \/
  cok (target_db st) t (map copy_column (map reflect_column (tbl_columns ts))) = true ->
  let d2 := provisioned_db (target_db st) t (map reflect_column (tbl_columns ts)) in
  let s3 := mkState (source_db st) d2 (reflect_md (source_db st) t (source_metadata st))
                    (reflect_md d2 t (target_metadata st)) (log st) in
  synchronize_table ok cok t st =
  match sync_rows ok t (map reflect_column (table_columns d2 t))
          (map col_name (filter col_primary_key (tbl_columns ts)))
          (map col_name (tbl_columns ts)) (table_rows d2 t) (tbl_rows ts) s3 with
  | (s4, Ok trs) =>
      (add_log (with_target s4 (set_rows t trs (target_db s4))) (LogSynced t), Ok tt)
  | (s4, Err e) => (add_log s4 (LogError t e), Err e)
  end.
Proof.
  intros Hs Hp d2 s3.
  destruct (provisioned_db_assoc (target_db st) t (map reflect_column (tbl_columns ts)))
    as [tb Htb].
  unfold synchronize_table, synchronize_table_body, bind, reflect_source.
  rewrite Hs. simpl.
  rewrite (ensure_target_table_ok cok t (map reflect_column (tbl_columns ts))
             (with_source_metadata st (reflect_md (source_db st) t (source_metadata st))) Hp).
  unfold reflect_target. simpl.
  fold d2 in Htb |- *. rewrite Htb. simpl.
  unfold get. simpl.
  assert (Hr : table_rows (source_db st) t = tbl_rows ts)
    by (unfold table_rows; now rewrite Hs).
  assert (Hc : table_columns d2 t = tbl_columns tb)
    by (unfold table_columns; now rewrite Htb).
  rewrite Hr, Hc, pk_names_reflected, map_col_name_reflected.
  change (with_target_metadata _ _) with s3.
  destruct (sync_rows ok t _ _ _ (table_rows d2 t) (tbl_rows ts) s3)
    as [s4 [trs|e]]; reflexivity.
Qed.

(** When the target lacks the table and refuses to create it, the call
    fails with the [create_all] error, logged, and only the reflection of
    the source table is left behind. *)
Lemma synchronize_table_refused ok cok t ts st :
  assoc t (source_db st) = Some ts -> has_table (target_db st) t = false ->
  cok (target_db st) t (map copy_column (map reflect_column (tbl_columns ts))) = false ->
  synchronize_table ok cok t st =
  (add_log (with_source_metadata st (reflect_md (source_db st) t (source_metadata st)))
           (LogError t (ProgrammingError t)), Err (ProgrammingError t)).
Proof.
  intros Hs Hh Hc. unfold synchronize_table, synchronize_table_body, bind, reflect_source.
  rewrite Hs. simpl. unfold ensure_target_table. simpl. rewrite Hh, Hc. reflexivity.
Qed.

Ltac provision_cases ok cok t ts st Hs :=
  let Hh := fresh "Hh" in
  let Hc := fresh "Hc" in
  destruct (has_table (target_db st) t) eqn:Hh;
  [rewrite (synchronize_table_run ok cok t ts st Hs (or_introl Hh))
  |destruct (cok (target_db st) t (map copy_column (map reflect_column (tbl_columns ts))))
     eqn:Hc;
   [rewrite (synchronize_table_run ok cok t ts st Hs (or_intror Hc))
   |rewrite (synchronize_table_refused ok cok t ts st Hs Hh Hc)]].

Lemma provisioning_dec (cok : db -> string -> list column -> bool) st t ts :
  {has_table (target_db st) t = true \/
   cok (target_db st) t (map copy_column (map reflect_column (tbl_columns ts))) = true} +
  {has_table (target_db st) t = false /\
   cok (target_db st) t (map copy_column (map reflect_column (tbl_columns ts))) = false}.
Proof.
  destruct (has_table (target_db st) t); [left; now left|].
  destruct (cok (target_db st) t _); [left; now right|right; now split].
Defined.

Lemma schema_of_set_rows t trs d n :
  schema_of (set_rows t trs d) n = schema_of d n.
Proof.
  unfold schema_of. induction d as [|[m x] d IH]; simpl; [reflexivity|].
  destruct (String.eqb t m) eqn:Etm; simpl.
  - apply String.eqb_eq in Etm. subst m. now destruct (String.eqb n t).
  - destruct (String.eqb n m); [reflexivity|exact IH].
Qed.

(** Whatever the row loop does, the committed structure of the target is
    the one [ensure_target_table] left. *)
Lemma synchronize_table_schema ok cok t ts st n :
  assoc t (source_db st) = Some ts ->
  schema_of (target_db (fst (synchronize_table ok cok t st))) n
  = schema_of (target_db (fst (ensure_target_table cok t (map reflect_column (tbl_columns ts)) st))) n.
Proof.
  intros Hs. provision_cases ok cok t ts st Hs.
  - rewrite ensure_target_table_ok by (left; exact Hh).
    match goal with
    | |- context [sync_rows ?a ?b ?c ?d ?e ?f ?g ?h] =>
        pose proof (sync_rows_frame a b c d e f g h) as (_ & Ht & _);
        destruct (sync_rows a b c d e f g h) as [s4 [trs|e']]
    end; simpl in *; rewrite ?schema_of_set_rows; now rewrite Ht.
  - rewrite ensure_target_table_ok by (right; exact Hc).
    match goal with
    | |- context [sync_rows ?a ?b ?c ?d ?e ?f ?g ?h] =>
        pose proof (sync_rows_frame a b c d e f g h) as (_ & Ht & _);
        destruct (sync_rows a b c d e f g h) as [s4 [trs|e']]
    end; simpl in *; rewrite ?schema_of_set_rows; now rewrite Ht.
  - unfold ensure_target_table. rewrite Hh, Hc. reflexivity.
Qed.

Lemma assoc_app_fresh {A : Type} k (x : A) d :
  assoc k d = None -> assoc k (d ++ [(k, x)]) = Some x.
Proof.
  induction d as [|[m y] d IH]; simpl; intros H.
  - now rewrite String.eqb_refl.
  - destruct (String.eqb k m); [discriminate|auto].
Qed.






(** ** Errors in [synchronize_table] *)

Lemma synchronize_table_no_source ok cok t st :
  assoc t (source_db st) = None ->
  synchronize_table ok cok t st = (add_log st (LogError t (NoSuchTableError t)),
                               Err (NoSuchTableError t)).
Proof.
  intros Hs. unfold synchronize_table, synchronize_table_body, bind, reflect_source.
  now rewrite Hs.
Qed.




(** C7: counterexample *)
(** [C7] fails: the exception that leaves [synchronize_table] is the
    underlying one itself, here [NoSuchTableError], not a wrapper around it. *)
Lemma synchronize_table_raises_underlying_error :
  synchronize_table accept_all create_all_ok "t" (fresh_state [] [])
  = (mkState [] [] [] [] [LogError "t" (NoSuchTableError "t")],
     Err (NoSuchTableError "t")).
Proof. reflexivity. Qed.

(** C7 *)
(** [C7] as the code does it: [synchronize_table] fails with exactly the
    error [e] its body raised, after appending one [LOG.error] entry naming
    the table and [e]; the body runs once (no retry) and a successful body
    is returned unchanged. *)
Theorem synchronize_table_logs_and_reraises ok cok t st :
  (forall e, snd (synchronize_table ok cok t st) = Err e <->
             snd (synchronize_table_body ok cok t st) = Err e) /\
  (forall e, snd (synchronize_table_body ok cok t st) = Err e ->
             fst (synchronize_table ok cok t st)
             = add_log (fst (synchronize_table_body ok cok t st)) (LogError t e)) /\
  (forall u, snd (synchronize_table_body ok cok t st) = Ok u ->
             synchronize_table ok cok t st = synchronize_table_body ok cok t st).
Proof.
  unfold synchronize_table.
  destruct (synchronize_table_body ok cok t st) as [s' [u|e']]; simpl.
  - split; [intros e; split; discriminate|]. split; [discriminate|reflexivity].
  - split; [intros e; reflexivity|]. split; [|discriminate].
    intros e [= <-]. reflexivity.
Qed.

Lemma synchronize_table_logs_and_reraises_witness :
  fst (synchronize_table accept_all create_all_ok "t" (fresh_state [] []))
  = add_log (fst (synchronize_table_body accept_all create_all_ok "t" (fresh_state [] [])))
            (LogError "t" (NoSuchTableError "t")).
Proof.
  apply (proj1 (proj2 (synchronize_table_logs_and_reraises accept_all create_all_ok "t"
                         (fresh_state [] [])))).
  reflexivity.
Defined.

(** ** Row reconciliation *)

Lemma value_eqb_eq a b : value_eqb a b = true <-> a = b.
Proof.
  destruct a, b; simpl; split; intros H; try discriminate; try congruence.
  - apply Z.eqb_eq in H. now subst.
  - injection H as <-. apply Z.eqb_refl.
  - apply String.eqb_eq in H. now subst.
  - injection H as <-. apply String.eqb_refl.
Qed.

Lemma assoc_dict_set {A : Type} k k' (v : A) d :
  assoc k (dict_set k' v d) = if String.eqb k k' then Some v else assoc k d.
Proof.
  induction d as [|[m x] d IH]; simpl.
  - destruct (String.eqb k k'); reflexivity.
  - destruct (String.eqb_spec k' m) as [->|Hne]; simpl.
    + destruct (String.eqb k m); reflexivity.
    + rewrite IH. destruct (String.eqb_spec k k') as [->|Hk]; [|reflexivity].
      destruct (String.eqb_spec k' m); [contradiction|reflexivity].
Qed.

Lemma record_values_assoc sr cols acc rec :
  record_values sr cols acc = Ok rec ->
  forall c, assoc c rec = if existsb (String.eqb c) cols then getattr sr c else assoc c acc.
Proof.
  revert acc. induction cols as [|c0 cols IH]; simpl; intros acc H c.
  - now injection H as <-.
  - destruct (getattr sr c0) as [v|] eqn:Ev; [|discriminate].
    rewrite (IH _ H c), assoc_dict_set.
    destruct (String.eqb_spec c c0) as [->|Hne]; simpl;
      destruct (existsb (String.eqb c0) cols); auto.
Qed.

(** The row a record becomes in a table with columns [tc]. *)
Lemma sync_row_cases ok t tc pks cols trs sr s s' trs' :
  sync_row ok t tc pks cols trs sr s = (s', Ok trs') ->
  exists cond,
    primary_key_condition tc sr pks = Ok cond /\
    ((exists er, find (condition_holds cond) trs = Some er /\ er <> [] /\
                 records_match sr er cols = Ok true /\ trs' = trs) \/
     ((find (condition_holds cond) trs = None \/
       find (condition_holds cond) trs = Some [] \/
       exists er, find (condition_holds cond) trs = Some er /\ er <> [] /\
                  records_match sr er cols = Ok false) /\
      exists record,
        (forall c, In c cols -> assoc c record = getattr sr c) /\
        trs' = trs ++ [map (fun col => (col_name col,
                                         match assoc (col_name col) record with
                                         | Some v => v
                                         | None => VNull
                                         end)) tc])).
Proof.
  unfold sync_row, bind, lift, info, modify, ret.
  destruct (primary_key_condition tc sr pks) as [cond|e] eqn:Ec; [|discriminate].
  intros H. exists cond. split; [reflexivity|].
  assert (Hins : forall rec,
             new_record sr cols = Ok rec ->
             insert_row ok t tc trs rec = Ok trs' ->
             (forall c, In c cols -> assoc c rec = getattr sr c) /\
             trs' = trs ++ [map (fun col => (col_name col,
                                              match assoc (col_name col) rec with
                                              | Some v => v
                                              | None => VNull
                                              end)) tc]).
  { intros rec Hr Hi. split.
    - intros c Hc. rewrite (record_values_assoc _ _ _ _ Hr c).
      replace (existsb (String.eqb c) cols) with true; [reflexivity|].
      symmetry. apply existsb_exists. exists c. split; [exact Hc|apply String.eqb_refl].
    - unfold insert_row in Hi. destruct (find _ rec) as [[k x]|]; [discriminate|].
      destruct (ok tc trs _); [|discriminate]. now injection Hi as <-. }
  destruct (find (condition_holds cond) trs) as [[|p er]|] eqn:Ef.
  - right. split; [auto|].
    destruct (new_record sr cols) as [rec|] eqn:Er; [|discriminate].
    destruct (insert_row ok t tc trs rec) as [trs1|] eqn:Ei; [|discriminate].
    injection H as <- <-. exists rec. now apply Hins.
  - destruct (records_match sr (p :: er) cols) as [[|]|] eqn:Em; [| |discriminate].
    + left. exists (p :: er). injection H as <- <-. repeat split; congruence.
    + right. split; [right; right; exists (p :: er); repeat split; congruence|].
      destruct (new_record sr cols) as [rec|] eqn:Er; [|discriminate].
      destruct (insert_row ok t tc trs rec) as [trs1|] eqn:Ei; [|discriminate].
      injection H as <- <-. exists rec. now apply Hins.
  - right. split; [auto|].
    destruct (new_record sr cols) as [rec|] eqn:Er; [|discriminate].
    destruct (insert_row ok t tc trs rec) as [trs1|] eqn:Ei; [|discriminate].
    injection H as <- <-. exists rec. now apply Hins.
Qed.

Lemma has_column_in tc c : In c (map col_name tc) -> has_column tc c = true.
Proof.
  intros H. apply in_map_iff in H as (col & <- & Hc).
  apply existsb_exists. exists col. split; [exact Hc|apply String.eqb_refl].
Qed.

Lemma assoc_nodup_in {A : Type} (l : list (string * A)) p :
  NoDup (map fst l) -> In p l -> assoc (fst p) l = Some (snd p).
Proof.
  destruct p as [k0 v0]. simpl.
  induction l as [|[k v] l IH]; simpl; [tauto|]. intros Hn [Heq|Hin].
  - injection Heq as -> ->. now rewrite String.eqb_refl.
  - inversion Hn as [|? ? Hk Hd]; subst.
    destruct (String.eqb_spec k0 k) as [->|Hne]; [|auto].
    exfalso. apply Hk. change k with (fst (k, v0)). now apply in_map.
Qed.

Lemma primary_key_condition_ok tc sr pks :
  incl pks (map col_name tc) -> (forall c, In c pks -> getattr sr c <> None) ->
  exists cond, primary_key_condition tc sr pks = Ok cond /\ map fst cond = pks /\
               (forall p, In p cond -> getattr sr (fst p) = Some (snd p)).
Proof.
  induction pks as [|c pks IH]; simpl; intros Hi Hv.
  - exists []. repeat split; auto. intros p [].
  - rewrite (has_column_in tc c) by (apply Hi; now left). simpl.
    destruct (getattr sr c) as [v|] eqn:Ev; [|exfalso; apply (Hv c); auto].
    destruct IH as (cond & -> & Hf & Hp).
    + intros x Hx. apply Hi. now right.
    + intros x Hx. apply Hv. now right.
    + exists ((c, v) :: cond). simpl. rewrite Hf. repeat split; auto.
      intros p [<-|Hin]; auto.
Qed.

Lemma condition_holds_key cond pks sr r' :
  map fst cond = pks -> (forall p, In p cond -> getattr sr (fst p) = Some (snd p)) ->
  condition_holds cond r' = true -> map (getattr r') pks = map (getattr sr) pks.
Proof.
  intros <- Hp Hc. rewrite !map_map. apply map_ext_in. intros p Hin.
  rewrite (Hp p Hin). unfold condition_holds in Hc. rewrite forallb_forall in Hc.
  specialize (Hc p Hin). destruct (getattr r' (fst p)) as [v|]; [|discriminate].
  apply value_eqb_eq in Hc. now subst.
Qed.

Lemma record_values_wf r l acc :
  (forall p, In p l -> getattr r (fst p) = Some (snd p)) ->
  NoDup (map fst acc ++ map fst l) ->
  record_values r (map fst l) acc = Ok (acc ++ l).
Proof.
  revert acc. induction l as [|p l IH]; simpl; intros acc Hp Hn.
  - now rewrite app_nil_r.
  - rewrite (Hp p) by auto. rewrite dict_set_fresh.
    + destruct p as [k v]. rewrite IH.
      * now rewrite <- app_assoc.
      * intros q Hq. auto.
      * rewrite map_app. simpl. now rewrite <- app_assoc.
    + intros Hin. apply NoDup_remove_2 in Hn. apply Hn. apply in_or_app. now left.
Qed.

Lemma new_record_wf r :
  NoDup (map fst r) -> new_record r (map fst r) = Ok r.
Proof.
  intros Hn. unfold new_record. apply (record_values_wf r r []); [|exact Hn].
  intros p Hp. now apply assoc_nodup_in.
Qed.

Lemma stored_row_wf tc r :
  NoDup (map fst r) -> map col_name tc = map fst r ->
  map (fun col => (col_name col, match assoc (col_name col) r with
                                 | Some v => v | None => VNull end)) tc = r.
Proof.
  intros Hn Hc.
  transitivity (map (fun n => (n, match assoc n r with Some v => v | None => VNull end))
                    (map col_name tc)); [now rewrite map_map|].
  rewrite Hc, map_map. rewrite <- (map_id r) at 2. apply map_ext_in.
  intros [k v] Hin. simpl. pose proof (assoc_nodup_in r (k, v) Hn Hin) as Ha.
  simpl in Ha. now rewrite Ha.
Qed.

Lemma find_all_false {A : Type} (f : A -> bool) l :
  (forall x, In x l -> f x = false) -> find f l = None.
Proof.
  induction l as [|a l IH]; simpl; intros H; [reflexivity|].
  rewrite (H a) by auto. apply IH. auto.
Qed.

Lemma sync_row_fresh ok t tc pks trs r s :
  NoDup (map fst r) -> map col_name tc = map fst r -> incl pks (map fst r) ->
  (forall r', In r' trs -> map (getattr r') pks <> map (getattr r) pks) ->
  ok tc trs r = true ->
  exists s', sync_row ok t tc pks (map fst r) trs r s = (s', Ok (trs ++ [r])).
Proof.
  intros Hn Hc Hi Hk Hok.
  destruct (primary_key_condition_ok tc r pks) as (cond & Ec & Hf & Hp).
  - rewrite Hc. exact Hi.
  - intros c Hin. apply Hi in Hin. apply in_map_iff in Hin as (p & <- & Hin).
    unfold getattr. rewrite (assoc_nodup_in r p Hn Hin). discriminate.
  - assert (Hnone : find (condition_holds cond) trs = None).
    { destruct (find (condition_holds cond) trs) as [r'|] eqn:Ef; [|reflexivity].
      exfalso. apply find_some in Ef as [Hin Hh].
      apply (Hk r' Hin). exact (condition_holds_key cond pks r r' Hf Hp Hh). }
    unfold sync_row, bind, lift, info, modify, ret.
    rewrite Ec, Hnone, (new_record_wf r Hn).
    unfold insert_row.
    replace (find (fun p => negb (has_column tc (fst p))) r) with (@None (string * value)).
    + rewrite (stored_row_wf tc r Hn Hc), Hok. eexists. reflexivity.
    + symmetry. apply find_all_false. intros [k v] Hin. simpl.
      rewrite has_column_in; [reflexivity|]. rewrite Hc.
      change k with (fst (k, v)). now apply in_map.
Qed.

(** Rows with pairwise distinct keys, none of them already in the target,
    are appended one by one. *)
Lemma sync_rows_fresh ok t tc pks cols trs rows s :
  NoDup cols -> map col_name tc = cols -> incl pks cols ->
  Forall (fun r => map fst r = cols) rows ->
  NoDup (map (fun r => map (getattr r) pks) (trs ++ rows)) ->
  (forall trs0 r, (forall r', In r' trs0 -> map (getattr r') pks <> map (getattr r) pks) ->
                  ok tc trs0 r = true) ->
  exists s', sync_rows ok t tc pks cols trs rows s = (s', Ok (trs ++ rows)).
Proof.
  intros Hn Hc Hi Hwf. revert trs s.
  induction Hwf as [|r rows Hr Hwf IH]; intros trs s Hk Hok; simpl.
  - exists s. now rewrite app_nil_r.
  - rewrite map_app in Hk. simpl in Hk.
    assert (Hfresh : forall r', In r' trs -> map (getattr r') pks <> map (getattr r) pks).
    { intros r' Hin Heq. apply NoDup_remove_2 in Hk. apply Hk.
      apply in_or_app. left. rewrite <- Heq. apply (in_map (fun r => map (getattr r) pks)).
      exact Hin. }
    assert (Hnr : NoDup (map fst r)) by (rewrite Hr; exact Hn).
    assert (Hcr : map col_name tc = map fst r) by (rewrite Hr; exact Hc).
    assert (Hir : incl pks (map fst r)) by (rewrite Hr; exact Hi).
    destruct (sync_row_fresh ok t tc pks trs r s Hnr Hcr Hir Hfresh (Hok _ _ Hfresh))
      as (s1 & E1).
    rewrite Hr in E1. unfold bind. rewrite E1.
    destruct (IH (trs ++ [r]) s1) as (s2 & E2).
    + rewrite <- app_assoc. simpl. rewrite map_app. exact Hk.
    + exact Hok.
    + exists s2. rewrite <- app_assoc in E2. exact E2.
Qed.

Lemma table_rows_set_rows t trs d :
  assoc t d <> None -> table_rows (set_rows t trs d) t = trs.
Proof.
  unfold table_rows. induction d as [|[m x] d IH]; simpl; intros H; [congruence|].
  destruct (String.eqb_spec t m) as [->|Hne]; simpl.
  - now rewrite String.eqb_refl.
  - apply String.eqb_neq in Hne. rewrite Hne. auto.
Qed.

Lemma pk_names_incl cols :
  incl (map col_name (filter col_primary_key cols)) (map col_name cols).
Proof.
  intros x Hx. apply in_map_iff in Hx as (c & <- & Hc).
  apply filter_In in Hc as [Hc _]. now apply in_map.
Qed.

(** C1: counterexample *)
(** [C1] fails on its last sentence: a source table without a primary key
    holding two equal rows, synchronised into a target without that table,
    leaves one row, not two (the second source row matches the first, which
    the open transaction already sees). *)
Lemma synchronize_table_duplicate_rows_collapse :
  let s' := synchronize_table accept_all create_all_ok "t" (fresh_state [("t", dup_rows)] []) in
  snd s' = Ok tt /\ table_rows (target_db (fst s')) "t" = [[("x", VInt 1)]] /\
  length (tbl_rows dup_rows) = 2.
Proof. vm_compute. repeat split. Qed.

(** C1 *)
(** [C1] as the code does it. Per source row, against the target rows as
    the open transaction sees them: the row loop never updates or deletes;
    it leaves the rows as they are exactly when the first row matching the
    primary-key condition is non-empty and equal on every source column, and
    otherwise (no match, or a match differing somewhere) appends the full
    source record. Synchronising a table into a target where it is absent
    and its creation succeeds, or present, empty and with the source's
    column names, with source rows well formed and pairwise distinct on the
    primary-key columns, and a store that accepts a row with a fresh key,
    succeeds and leaves exactly the source rows, in order. *)
Theorem synchronize_table_append_on_mismatch ok cok :
  (forall t tc pks cols trs sr s s' trs',
     sync_row ok t tc pks cols trs sr s = (s', Ok trs') ->
     exists cond,
       primary_key_condition tc sr pks = Ok cond /\
       ((exists er, find (condition_holds cond) trs = Some er /\ er <> [] /\
                    records_match sr er cols = Ok true /\ trs' = trs) \/
        ((find (condition_holds cond) trs = None \/
          find (condition_holds cond) trs = Some [] \/
          exists er, find (condition_holds cond) trs = Some er /\ er <> [] /\
                     records_match sr er cols = Ok false) /\
         exists record,
           (forall c, In c cols -> assoc c record = getattr sr c) /\
           trs' = trs ++ [map (fun col => (col_name col,
                                            match assoc (col_name col) record with
                                            | Some v => v
                                            | None => VNull
                                            end)) tc]))) /\
  (forall t ts st,
     assoc t (source_db st) = Some ts ->
     NoDup (map col_name (tbl_columns ts)) ->
     Forall (fun r => map fst r = map col_name (tbl_columns ts)) (tbl_rows ts) ->
     NoDup (map (fun r => map (getattr r) (map col_name (filter col_primary_key (tbl_columns ts))))
                (tbl_rows ts)) ->
     ((assoc t (target_db st) = None /\
       cok (target_db st) t (map copy_column (map reflect_column (tbl_columns ts))) = true) \/
      exists tb, assoc t (target_db st) = Some tb /\ tbl_rows tb = [] /\
                 map col_name (tbl_columns tb) = map col_name (tbl_columns ts)) ->
     (forall tc trs0 r,
        (forall r', In r' trs0 ->
                    map (getattr r') (map col_name (filter col_primary_key (tbl_columns ts)))
                    <> map (getattr r) (map col_name (filter col_primary_key (tbl_columns ts)))) ->
        ok tc trs0 r = true) ->
     snd (synchronize_table ok cok t st) = Ok tt /\
     table_rows (target_db (fst (synchronize_table ok cok t st))) t = tbl_rows ts).
Proof.
  split; [exact (sync_row_cases ok)|].
  intros t ts st Hs Hn Hwf Hk Htgt Hok.
  rewrite (synchronize_table_run ok cok t ts st Hs).
  2:{ unfold has_table. destruct Htgt as [[Hnone Hc]|(tb & Htb & _)].
      - now right.
      - left. now rewrite Htb. }
  set (d2 := provisioned_db (target_db st) t (map reflect_column (tbl_columns ts))).
  set (pks := map col_name (filter col_primary_key (tbl_columns ts))) in *.
  assert (Hprov : exists tb, assoc t d2 = Some tb /\ tbl_rows tb = [] /\
                             map col_name (tbl_columns tb) = map col_name (tbl_columns ts)).
  { subst d2. unfold provisioned_db, has_table.
    destruct Htgt as [[Hnone _]|(tb & Htb & Hr & Hc)].
    - rewrite Hnone. rewrite assoc_app_fresh by exact Hnone.
      eexists. split; [reflexivity|]. split; [reflexivity|]. simpl.
      rewrite !map_map. reflexivity.
    - rewrite Htb. now exists tb. }
  destruct Hprov as (tb & Htb & Hr & Hc).
  assert (Hrows : table_rows d2 t = []) by (unfold table_rows; now rewrite Htb).
  assert (Hcols : table_columns d2 t = tbl_columns tb)
    by (unfold table_columns; now rewrite Htb).
  rewrite Hrows, Hcols.
  rewrite <- map_col_name_reflected in Hc.
  match goal with
  | |- context [sync_rows ?a ?b ?c ?d ?e ?f ?g ?h] =>
      pose proof (sync_rows_frame a b c d e f g h) as (_ & Ht & _);
      destruct (sync_rows_fresh a b c d e f g h) as (s4 & E)
  end.
  - exact Hn.
  - exact Hc.
  - apply pk_names_incl.
  - exact Hwf.
  - exact Hk.
  - intros trs0 r Hf. apply Hok. exact Hf.
  - rewrite E in Ht |- *. simpl in *. split; [reflexivity|].
    rewrite Ht. apply table_rows_set_rows. rewrite Htb. discriminate.
Qed.

Lemma synchronize_table_append_on_mismatch_witness :
  snd (synchronize_table accept_all create_all_ok "t" (fresh_state [("t", users)] [])) = Ok tt /\
  table_rows (target_db (fst (synchronize_table accept_all create_all_ok "t"
                                (fresh_state [("t", users)] [])))) "t"
  = [user_row 1 "a"; user_row 2 "b"].
Proof.
  apply (proj2 (synchronize_table_append_on_mismatch accept_all create_all_ok) "t" users
           (fresh_state [("t", users)] [])).
  - reflexivity.
  - repeat constructor; simpl; intuition discriminate.
  - repeat constructor.
  - simpl. repeat constructor; simpl; intuition discriminate.
  - left. split; reflexivity.
  - intros; reflexivity.
Defined.

(** ** The primary-key lookup *)

Lemma primary_key_condition_values tc sr pks cond :
  primary_key_condition tc sr pks = Ok cond ->
  map fst cond = pks /\ (forall p, In p cond -> getattr sr (fst p) = Some (snd p)).
Proof.
  revert cond. induction pks as [|c pks IH]; simpl; intros cond H.
  - injection H as <-. split; [reflexivity|intros p []].
  - destruct (has_column tc c); simpl in H; [|discriminate].
    destruct (getattr sr c) as [v|] eqn:Ev; [|discriminate].
    destruct (primary_key_condition tc sr pks) as [rest|e]; [|discriminate].
    injection H as <-. destruct (IH rest eq_refl) as [Hf Hp].
    simpl. rewrite Hf. split; [reflexivity|]. intros p [<-|Hin]; auto.
Qed.

(** C4 *)
(** [C4]: the lookup condition built for a source row has one equality per
    primary-key column, and a target row satisfies it exactly when it agrees
    with the source row on every primary-key column; a row agreeing on only
    some of them does not. [sync_row] takes the first row satisfying it. *)
Theorem primary_key_condition_conjunction tc sr pks cond :
  primary_key_condition tc sr pks = Ok cond ->
  map fst cond = pks /\
  (forall r, condition_holds cond r = true <->
             (forall c, In c pks -> exists v, getattr sr c = Some v /\ getattr r c = Some v)) /\
  (forall trs r, find (condition_holds cond) trs = Some r ->
                 In r trs /\ condition_holds cond r = true).
Proof.
  intros H. destruct (primary_key_condition_values tc sr pks cond H) as [Hf Hp].
  split; [exact Hf|]. split.
  - intros r. unfold condition_holds. rewrite forallb_forall. split.
    + intros Hall c Hc. rewrite <- Hf in Hc. apply in_map_iff in Hc as (p & <- & Hin).
      exists (snd p). split; [now apply Hp|].
      specialize (Hall p Hin). destruct (getattr r (fst p)) as [v|]; [|discriminate].
      apply value_eqb_eq in Hall. now subst.
    + intros Hall p Hin.
      destruct (Hall (fst p)) as (v & Hs & Hr).
      * rewrite <- Hf. now apply in_map.
      * rewrite Hr. rewrite (Hp p Hin) in Hs. injection Hs as ->.
        apply value_eqb_eq. reflexivity.
  - intros trs r Hfind. now apply find_some in Hfind.
Qed.

Lemma primary_key_condition_conjunction_witness :
  primary_key_condition [c_a; c_b; c_v] [("a", VInt 1); ("b", VInt 2); ("v", VStr "x")]
                        ["a"; "b"] = Ok [("a", VInt 1); ("b", VInt 2)] /\
  condition_holds [("a", VInt 1); ("b", VInt 2)]
                  [("a", VInt 1); ("b", VInt 3); ("v", VStr "x")] = false.
Proof.
  split; [reflexivity|].
  destruct (primary_key_condition_conjunction [c_a; c_b; c_v]
              [("a", VInt 1); ("b", VInt 2); ("v", VStr "x")] ["a"; "b"]
              [("a", VInt 1); ("b", VInt 2)] eq_refl) as (_ & Hiff & _).
  destruct (condition_holds _ _) eqn:E; [|reflexivity].
  pose proof (proj1 (Hiff _) E) as E'.
  destruct (E' "b") as (v & H1 & H2); [simpl; tauto|].
  unfold getattr in H1, H2. simpl in H1, H2. congruence.
Defined.

(** C10 *)
(** [C10]: with no primary-key column the condition is empty (no error);
    every row satisfies it, so the lookup yields the first target row if
    there is one. For a non-empty first row, nothing is written when it
    equals the source row on every source column, and the source record is
    inserted when they differ; with no target row the record is inserted. *)
Theorem sync_row_without_primary_key ok t tc cols trs sr s :
  primary_key_condition tc sr [] = Ok [] /\
  find (condition_holds []) trs = hd_error trs /\
  (forall er rest, trs = er :: rest -> er <> [] ->
     (records_match sr er cols = Ok true -> sync_row ok t tc [] cols trs sr s = (s, Ok trs)) /\
     (records_match sr er cols = Ok false ->
        snd (sync_row ok t tc [] cols trs sr s)
        = match new_record sr cols with
          | Ok record => insert_row ok t tc trs record
          | Err e => Err e
          end)) /\
  (trs = [] ->
     snd (sync_row ok t tc [] cols trs sr s)
     = match new_record sr cols with
       | Ok record => insert_row ok t tc trs record
       | Err e => Err e
       end).
Proof.
  split; [reflexivity|]. split; [destruct trs; reflexivity|].
  unfold sync_row, bind, lift, info, modify, ret. simpl. split.
  - intros er rest -> Hne. destruct er as [|p er]; [contradiction|]. simpl.
    split; intros Hm; rewrite Hm; [reflexivity|].
    destruct (new_record sr cols); [|reflexivity].
    destruct (insert_row ok t tc _ _); reflexivity.
  - intros ->. simpl. destruct (new_record sr cols); [|reflexivity].
    destruct (insert_row ok t tc _ _); reflexivity.
Qed.

Lemma sync_row_without_primary_key_witness :
  sync_row accept_all "t" [c_x] [] ["x"] [[("x", VInt 1)]] [("x", VInt 1)]
           (fresh_state [] [])
  = (fresh_state [] [], Ok [[("x", VInt 1)]]).
Proof.
  apply (proj1 (proj1 (proj2 (proj2 (sync_row_without_primary_key accept_all "t" [c_x]
           ["x"] [[("x", VInt 1)]] [("x", VInt 1)] (fresh_state [] [])))) _ _ eq_refl
           ltac:(discriminate))).
  reflexivity.
Defined.

(** ** [get_table_differences] and the synchroniser's state *)

(** C8: counterexample *)
(** [C8] fails: computing the diff registers the reflected table in both
    metadata collections of the synchroniser, and with it, in the source
    collection, the table its foreign key refers to. *)
Lemma get_table_differences_registers_metadata :
  let st := fresh_state [("t", users)] [("t", users)] in
  let st' := fresh_state [("t", orders); ("p", users)] [] in
  source_metadata st = [] /\ target_metadata st = [] /\
  source_metadata (fst (get_table_differences "t" st)) = ["t"] /\
  target_metadata (fst (get_table_differences "t" st)) = ["t"] /\
  source_metadata (fst (get_table_differences "t" st')) = ["t"; "p"].
Proof. vm_compute. repeat split. Qed.

(** C8 *)
(** [C8] as the code does it: the diff leaves both databases and the log
    as they are; its result depends only on the columns of the two
    reflected tables (or is [NoSuchTableError] when one is missing); its
    only effect is to register, in the source metadata, the table and the
    tables its foreign keys reach in the source (when the source has it)
    and, in the target metadata, the table and the tables its foreign keys
    reach in the target (when both have it). *)
Theorem get_table_differences_effects st name :
  get_table_differences name st =
  match assoc name (source_db st), assoc name (target_db st) with
  | Some ts, Some tg =>
      (mkState (source_db st) (target_db st) (reflect_md (source_db st) name (source_metadata st))
               (reflect_md (target_db st) name (target_metadata st)) (log st),
       Ok (table_differences (tbl_columns ts) (tbl_columns tg)))
  | Some _, None =>
      (mkState (source_db st) (target_db st) (reflect_md (source_db st) name (source_metadata st))
               (target_metadata st) (log st),
       Err (NoSuchTableError name))
  | None, _ => (st, Err (NoSuchTableError name))
  end.
Proof.
  unfold get_table_differences, bind, reflect_source, reflect_target.
  destruct (assoc name (source_db st)) as [ts|] eqn:Es; [|reflexivity].
  simpl. destruct (assoc name (target_db st)) as [tg|]; [|reflexivity].
  unfold ret. now rewrite table_differences_reflected.
Qed.

(** The diff step as a state transformer. *)
Lemma get_table_differences_step st name :
  get_table_differences name st =
  match assoc name (source_db st), assoc name (target_db st) with
  | Some ts, Some tg =>
      (mkState (source_db st) (target_db st) (reflect_md (source_db st) name (source_metadata st))
               (reflect_md (target_db st) name (target_metadata st)) (log st),
       Ok (table_differences (tbl_columns ts) (tbl_columns tg)))
  | Some _, None =>
      (mkState (source_db st) (target_db st) (reflect_md (source_db st) name (source_metadata st))
               (target_metadata st) (log st),
       Err (NoSuchTableError name))
  | None, _ => (st, Err (NoSuchTableError name))
  end.
Proof.
  unfold get_table_differences, bind, reflect_source, reflect_target.
  destruct (assoc name (source_db st)) as [ts|] eqn:Es; [|reflexivity].
  simpl. destruct (assoc name (target_db st)) as [tg|]; [|reflexivity].
  unfold ret. now rewrite table_differences_reflected.
Qed.

(** ** Logs *)

Lemma started_app l1 l2 : started (l1 ++ l2) = started l1 ++ started l2.
Proof.
  induction l1 as [|e l1 IH]; simpl; [reflexivity|]. destruct e; simpl; congruence.
Qed.

Lemma quiet_refl s s' : log s' = log s -> quiet_growth s s'.
Proof. intros H. exists []. rewrite H, app_nil_r. now split. Qed.

Lemma quiet_trans s1 s2 s3 :
  quiet_growth s1 s2 -> quiet_growth s2 s3 -> quiet_growth s1 s3.
Proof.
  intros (e1 & H1 & S1) (e2 & H2 & S2). exists (e1 ++ e2).
  rewrite H2, H1, app_assoc, started_app, S1, S2. now split.
Qed.

Lemma quiet_add_log s e :
  (forall t, e <> LogStart t) -> quiet_growth s (add_log s e).
Proof.
  intros H. exists [e]. split; [reflexivity|]. destruct e; simpl; auto.
  exfalso. eapply H. reflexivity.
Qed.

Lemma quiet_with_target s d : quiet_growth s (with_target s d).
Proof. now apply quiet_refl. Qed.

Ltac quiet_step :=
  first [ apply quiet_refl; reflexivity
        | apply quiet_add_log; intros ? ?; discriminate ].

Lemma sync_row_quiet ok t tc pks cols trs r s :
  quiet_growth s (fst (sync_row ok t tc pks cols trs r s)).
Proof.
  unfold sync_row, bind, lift, info, modify, ret. split_matches; simpl; quiet_step.
Qed.

Lemma sync_rows_quiet ok t tc pks cols trs rows s :
  quiet_growth s (fst (sync_rows ok t tc pks cols trs rows s)).
Proof.
  revert trs s. induction rows as [|r rows IH]; intros trs s; simpl.
  - quiet_step.
  - unfold bind. pose proof (sync_row_quiet ok t tc pks cols trs r s) as H.
    destruct (sync_row ok t tc pks cols trs r s) as [s1 [trs1|e]]; simpl in *; auto.
    eapply quiet_trans; [exact H|]. apply IH.
Qed.

Lemma synchronize_table_quiet ok cok t st :
  quiet_growth st (fst (synchronize_table ok cok t st)).
Proof.
  destruct (assoc t (source_db st)) as [ts|] eqn:Hs.
  - destruct (provisioning_dec cok st t ts) as [Hp|[Hh Hc]].
    2:{ rewrite (synchronize_table_refused ok cok t ts st Hs Hh Hc).
        eapply quiet_trans; [|apply quiet_add_log; intros ? ?; discriminate]. quiet_step. }
    rewrite (synchronize_table_run ok cok t ts st Hs Hp).
    match goal with
    | |- context [sync_rows ?a ?b ?c ?d ?e ?f ?g ?h] =>
        pose proof (sync_rows_quiet a b c d e f g h) as Hq;
        destruct (sync_rows a b c d e f g h) as [s4 [trs|e']]
    end; simpl in *.
    + eapply quiet_trans; [|apply quiet_add_log; intros ? ?; discriminate].
      eapply quiet_trans; [|apply quiet_with_target].
      eapply quiet_trans; [|exact Hq]. quiet_step.
    + eapply quiet_trans; [|apply quiet_add_log; intros ? ?; discriminate].
      eapply quiet_trans; [|exact Hq]. quiet_step.
  - rewrite (synchronize_table_no_source ok cok t st Hs). simpl. quiet_step.
Qed.

Lemma process_table_started ok cok t st :
  started (log (fst (process_table ok cok t st))) = started (log st) ++ [t].
Proof.
  unfold process_table, bind, info, modify. simpl.
  set (st1 := add_log st (LogStart t)).
  assert (H1 : started (log st1) = started (log st) ++ [t])
    by (unfold st1; simpl; now rewrite started_app).
  rewrite (get_table_differences_step st1 t).
  assert (Hq : forall s', quiet_growth st1 s' -> started (log s') = started (log st) ++ [t]).
  { intros s' (ext & He & Hs). rewrite He, started_app, Hs, app_nil_r. exact H1. }
  destruct (assoc t (source_db st1)) as [ts|];
    [destruct (assoc t (target_db st1)) as [tg|]|]; simpl;
    [|now rewrite started_app..].
  destruct (any_differences _); simpl.
  - apply Hq. eapply quiet_trans; [|apply synchronize_table_quiet].
    eapply quiet_trans; [|apply quiet_add_log; intros ? ?; discriminate]. quiet_step.
  - apply Hq. eapply quiet_trans; [|apply synchronize_table_quiet]. quiet_step.
Qed.

(** ** [synchronize_database] *)

Lemma in_register x n md : In x (register n md) <-> In x md \/ x = n.
Proof.
  unfold register. destruct (existsb (String.eqb n) md) eqn:E.
  - apply existsb_exists in E as (y & Hy & Hn). apply String.eqb_eq in Hn. subst y.
    split; [auto|]. intros [H| ->]; auto.
  - rewrite in_app_iff. simpl. split; intros [H|H]; auto.
    + destruct H as [<-|[]]. auto.
Qed.

Lemma in_reflect_all x ns md :
  In x (fold_left (fun md n => register n md) ns md) <-> In x md \/ In x ns.
Proof.
  revert md. induction ns as [|n ns IH]; intros md; simpl.
  - tauto.
  - rewrite IH, in_register. split; intros H; intuition.
Qed.

Lemma synchronize_tables_fail_fast ok cok l st :
  (snd (synchronize_tables ok cok l st) = Ok tt ->
   started (log (fst (synchronize_tables ok cok l st))) = started (log st) ++ l) /\
  (forall e, snd (synchronize_tables ok cok l st) = Err e ->
   exists k st_k,
     k < length l /\
     synchronize_tables ok cok (firstn k l) st = (st_k, Ok tt) /\
     process_table ok cok (nth k l "") st_k = (fst (synchronize_tables ok cok l st), Err e) /\
     started (log (fst (synchronize_tables ok cok l st))) = started (log st) ++ firstn (S k) l).
Proof.
  revert st. induction l as [|t l IH]; intros st; simpl.
  - split; [intros _; now rewrite app_nil_r|discriminate].
  - unfold bind. pose proof (process_table_started ok cok t st) as Hst.
    destruct (process_table ok cok t st) as [s1 [u|e1]] eqn:E1; simpl in Hst.
    + destruct (IH s1) as [Hok Herr]. split.
      * intros H. rewrite (Hok H), Hst, <- app_assoc. reflexivity.
      * intros e H. destruct (Herr e H) as (k & st_k & Hk & Hpre & Hp & Hs).
        exists (S k), st_k. split; [lia|]. split.
        { simpl. unfold bind. rewrite E1. destruct u. exact Hpre. }
        split; [exact Hp|].
        rewrite Hs, Hst, <- app_assoc. reflexivity.
    + split; [discriminate|]. intros e [= <-].
      exists 0, st. split; [lia|]. split; [reflexivity|]. split; [exact E1|].
      simpl. exact Hst.
Qed.

(** C5 *)
(** [C5]: with no list, the tables are the keys of the source metadata
    after full reflection, which holds every table of the source (and
    otherwise only tables registered before); with a list, exactly those
    tables in order. Each table is processed by [process_table] (log start,
    diff, optional warning, [synchronize_table]). If all succeed, every
    table of the list was started in order; if one fails, the tables before
    it succeeded, the call ends with that table's error and state, and no
    later table is started. *)
Theorem synchronize_database_fail_fast ok cok :
  (forall st,
     synchronize_database ok cok None st =
     synchronize_tables ok cok
       (fold_left (fun md n => register n md) (map fst (source_db st)) (source_metadata st))
       (with_source_metadata st
          (fold_left (fun md n => register n md) (map fst (source_db st))
                     (source_metadata st)))) /\
  (forall st x,
     In x (fold_left (fun md n => register n md) (map fst (source_db st)) (source_metadata st))
     <-> In x (source_metadata st) \/ In x (map fst (source_db st))) /\
  (forall l st, synchronize_database ok cok (Some l) st = synchronize_tables ok cok l st) /\
  (forall l st,
     snd (synchronize_tables ok cok l st) = Ok tt ->
     started (log (fst (synchronize_tables ok cok l st))) = started (log st) ++ l) /\
  (forall l st e,
     snd (synchronize_tables ok cok l st) = Err e ->
     exists k st_k,
       k < length l /\
       synchronize_tables ok cok (firstn k l) st = (st_k, Ok tt) /\
       process_table ok cok (nth k l "") st_k = (fst (synchronize_tables ok cok l st), Err e) /\
       started (log (fst (synchronize_tables ok cok l st))) = started (log st) ++ firstn (S k) l).
Proof.
  split; [reflexivity|]. split; [intros st x; apply in_reflect_all|].
  split; [reflexivity|]. split.
  - intros l st. apply (proj1 (synchronize_tables_fail_fast ok cok l st)).
  - intros l st e. apply (proj2 (synchronize_tables_fail_fast ok cok l st)).
Qed.

Lemma synchronize_database_fail_fast_witness :
  started (log (fst (synchronize_tables accept_all create_all_ok ["t"]
                       (fresh_state [("t", users)] [("t", users)]))))
  = started (log (fresh_state [("t", users)] [("t", users)])) ++ ["t"].
Proof.
  apply (proj1 (proj2 (proj2 (proj2 (synchronize_database_fail_fast accept_all create_all_ok))))
           ["t"] (fresh_state [("t", users)] [("t", users)])).
  reflexivity.
Defined.

Lemma synchronize_table_existing_schema ok cok t ts s n :
  assoc t (source_db s) = Some ts -> has_table (target_db s) t = true ->
  schema_of (target_db (fst (synchronize_table ok cok t s))) n = schema_of (target_db s) n.
Proof.
  intros Hs Ht. rewrite (synchronize_table_schema ok cok t ts s n Hs).
  rewrite ensure_target_table_ok by (left; exact Ht).
  simpl. unfold provisioned_db. now rewrite Ht.
Qed.

Lemma process_table_schema ok cok t st n :
  schema_of (target_db (fst (process_table ok cok t st))) n = schema_of (target_db st) n.
Proof.
  unfold process_table, bind, info, modify. simpl.
  rewrite (get_table_differences_step (add_log st (LogStart t)) t). simpl.
  destruct (assoc t (source_db st)) as [ts|] eqn:Hs;
    [destruct (assoc t (target_db st)) as [tg|] eqn:Ht|]; simpl; [|reflexivity..].
  assert (Hh : has_table (target_db st) t = true) by (unfold has_table; now rewrite Ht).
  destruct (any_differences _); simpl;
    (rewrite synchronize_table_existing_schema with (ts := ts); [reflexivity|exact Hs|exact Hh]).
Qed.

Lemma synchronize_tables_schema ok cok l st n :
  schema_of (target_db (fst (synchronize_tables ok cok l st))) n = schema_of (target_db st) n.
Proof.
  revert st. induction l as [|t l IH]; intros st; simpl; [reflexivity|].
  unfold bind. pose proof (process_table_schema ok cok t st n) as H.
  destruct (process_table ok cok t st) as [s1 [u|e]]; simpl in *; [|exact H].
  rewrite IH. exact H.
Qed.

(** C9 *)
(** [C9]: when the target lacks the first listed table, the run fails with
    [NoSuchTableError] right after its start entry: the diff raised, so
    [synchronize_table] (which always logs success or failure) never ran,
    and the target is untouched. More generally, [synchronize_database]
    never creates a target table nor changes the structure of one, whatever
    the table list. *)
Theorem synchronize_database_no_provisioning ok cok :
  (forall st t rest,
     assoc t (target_db st) = None ->
     snd (synchronize_database ok cok (Some (t :: rest)) st) = Err (NoSuchTableError t) /\
     target_db (fst (synchronize_database ok cok (Some (t :: rest)) st)) = target_db st /\
     log (fst (synchronize_database ok cok (Some (t :: rest)) st)) = log st ++ [LogStart t]) /\
  (forall tables st n,
     schema_of (target_db (fst (synchronize_database ok cok tables st))) n
     = schema_of (target_db st) n).
Proof.
  split.
  - intros st t rest Ht. simpl. unfold bind, process_table, bind, info, modify. simpl.
    rewrite (get_table_differences_step (add_log st (LogStart t)) t). simpl.
    rewrite Ht. destruct (assoc t (source_db st)); simpl; repeat split.
  - intros [l|] st n; simpl.
    + apply synchronize_tables_schema.
    + unfold bind, reflect_all. simpl. rewrite synchronize_tables_schema. reflexivity.
Qed.

Lemma synchronize_database_no_provisioning_witness :
  snd (synchronize_database accept_all create_all_ok (Some ["t"]) (fresh_state [("t", users)] []))
  = Err (NoSuchTableError "t").
Proof.
  apply (proj1 (synchronize_database_no_provisioning accept_all create_all_ok)
           (fresh_state [("t", users)] []) "t" []).
  reflexivity.
Defined.

(** * Further properties of the synchroniser *)

Lemma sync_row_append ok t tc pks cols trs sr s s' trs' :
  sync_row ok t tc pks cols trs sr s = (s', Ok trs') ->
  trs' = trs \/ exists r, trs' = trs ++ [r].
Proof.
  intros H. destruct (sync_row_cases ok t tc pks cols trs sr s s' trs' H)
    as (cond & _ & [(er & _ & _ & _ & ->)|(_ & rec & _ & ->)]); eauto.
Qed.

Lemma sync_rows_append ok t tc pks cols trs rows s s' trs' :
  sync_rows ok t tc pks cols trs rows s = (s', Ok trs') ->
  exists added, trs' = trs ++ added /\ length added <= length rows.
Proof.
  revert trs s. induction rows as [|r rows IH]; intros trs s H; simpl in H.
  - injection H as _ <-. exists []. rewrite app_nil_r. simpl. split; [reflexivity|lia].
  - unfold bind in H.
    destruct (sync_row ok t tc pks cols trs r s) as [s1 [trs1|e]] eqn:E1; [|discriminate].
    destruct (IH trs1 s1 H) as (added & -> & Hl).
    destruct (sync_row_append ok t tc pks cols trs r s s1 trs1 E1) as [->|(x & ->)].
    + exists added. simpl. split; [reflexivity|lia].
    + exists (x :: added). rewrite <- app_assoc. simpl. split; [reflexivity|lia].
Qed.

Lemma table_rows_provisioned d t cols :
  table_rows (provisioned_db d t cols) t = table_rows d t.
Proof.
  unfold provisioned_db, has_table, table_rows.
  destruct (assoc t d) eqn:E; [now rewrite E|]. now rewrite assoc_app_fresh by exact E.
Qed.

(** X2 *)
(** A successful [synchronize_table] only appends to the table's rows: the
    rows it had come first, unchanged, followed by at most one new row per
    source row. *)
Theorem synchronize_table_appends_only ok cok t ts st :
  assoc t (source_db st) = Some ts ->
  snd (synchronize_table ok cok t st) = Ok tt ->
  exists added,
    table_rows (target_db (fst (synchronize_table ok cok t st))) t
    = table_rows (target_db st) t ++ added /\
    length added <= length (tbl_rows ts).
Proof.
  intros Hs. destruct (provisioning_dec cok st t ts) as [Hp|[Hh Hc]].
  2:{ now rewrite (synchronize_table_refused ok cok t ts st Hs Hh Hc). }
  rewrite (synchronize_table_run ok cok t ts st Hs Hp).
  destruct (provisioned_db_assoc (target_db st) t (map reflect_column (tbl_columns ts)))
    as [tb Htb].
  match goal with
  | |- context [sync_rows ?a ?b ?c ?d ?e ?f ?g ?h] =>
      pose proof (sync_rows_frame a b c d e f g h) as (_ & Ht & _);
      pose proof (sync_rows_append a b c d e f g h) as Happ;
      destruct (sync_rows a b c d e f g h) as [s4 [trs|e']]
  end; simpl in *; [|discriminate].
  intros _. destruct (Happ s4 trs eq_refl) as (added & -> & Hl).
  exists added. rewrite Ht, table_rows_set_rows by (rewrite Htb; discriminate).
  rewrite table_rows_provisioned. split; [reflexivity|exact Hl].
Qed.

Lemma synchronize_table_appends_only_witness :
  exists added,
    table_rows (target_db (fst (synchronize_table accept_all create_all_ok "t"
                                  (fresh_state [("t", users)] [])))) "t"
    = table_rows (target_db (fresh_state [("t", users)] [])) "t" ++ added /\
    length added <= 2.
Proof.
  apply (synchronize_table_appends_only accept_all create_all_ok "t" users
           (fresh_state [("t", users)] [])); reflexivity.
Defined.

Lemma synchronize_table_source ok cok t st :
  source_db (fst (synchronize_table ok cok t st)) = source_db st.
Proof.
  destruct (assoc t (source_db st)) as [ts|] eqn:Hs.
  - destruct (provisioning_dec cok st t ts) as [Hp|[Hh Hc]].
    2:{ now rewrite (synchronize_table_refused ok cok t ts st Hs Hh Hc). }
    rewrite (synchronize_table_run ok cok t ts st Hs Hp).
    match goal with
    | |- context [sync_rows ?a ?b ?c ?d ?e ?f ?g ?h] =>
        pose proof (sync_rows_frame a b c d e f g h) as (Hsrc & _);
        destruct (sync_rows a b c d e f g h) as [s4 [trs|e']]
    end; simpl in *; exact Hsrc.
  - now rewrite (synchronize_table_no_source ok cok t st Hs).
Qed.

Lemma process_table_source ok cok t st :
  source_db (fst (process_table ok cok t st)) = source_db st.
Proof.
  unfold process_table, bind, info, modify. simpl.
  rewrite (get_table_differences_step (add_log st (LogStart t)) t). simpl.
  destruct (assoc t (source_db st)) as [ts|];
    [destruct (assoc t (target_db st)) as [tg|]|]; simpl; [|reflexivity..].
  destruct (any_differences _); simpl; rewrite synchronize_table_source; reflexivity.
Qed.

Lemma synchronize_tables_source ok cok l st :
  source_db (fst (synchronize_tables ok cok l st)) = source_db st.
Proof.
  revert st. induction l as [|t l IH]; intros st; simpl; [reflexivity|].
  unfold bind. pose proof (process_table_source ok cok t st) as H.
  destruct (process_table ok cok t st) as [s1 [u|e]]; simpl in *; [|exact H].
  rewrite IH. exact H.
Qed.

Lemma assoc_provisioned_other d t cols n :
  n <> t -> assoc n (provisioned_db d t cols) = assoc n d.
Proof.
  intros Hn. unfold provisioned_db. destruct (has_table d t); [reflexivity|].
  induction d as [|[m x] d IH]; simpl.
  - apply String.eqb_neq in Hn. now rewrite Hn.
  - destruct (String.eqb n m); [reflexivity|exact IH].
Qed.

Lemma assoc_set_rows_other d t trs n :
  n <> t -> assoc n (set_rows t trs d) = assoc n d.
Proof.
  intros Hn. induction d as [|[m x] d IH]; simpl; [reflexivity|].
  destruct (String.eqb_spec t m) as [->|Hne]; simpl.
  - apply String.eqb_neq in Hn. now rewrite Hn.
  - destruct (String.eqb n m); [reflexivity|exact IH].
Qed.

(** X1 *)
(** [synchronize_table t] touches no other table of the target: every
    table named differently keeps its columns and rows. *)
Theorem synchronize_table_other_tables ok cok t st n :
  n <> t ->
  assoc n (target_db (fst (synchronize_table ok cok t st))) = assoc n (target_db st).
Proof.
  intros Hn. destruct (assoc t (source_db st)) as [ts|] eqn:Hs.
  - destruct (provisioning_dec cok st t ts) as [Hp|[Hh Hc]].
    2:{ now rewrite (synchronize_table_refused ok cok t ts st Hs Hh Hc). }
    rewrite (synchronize_table_run ok cok t ts st Hs Hp).
    match goal with
    | |- context [sync_rows ?a ?b ?c ?d ?e ?f ?g ?h] =>
        pose proof (sync_rows_frame a b c d e f g h) as (_ & Ht & _);
        destruct (sync_rows a b c d e f g h) as [s4 [trs|e']]
    end; simpl in *; rewrite ?assoc_set_rows_other by exact Hn; rewrite Ht;
      now apply assoc_provisioned_other.
  - now rewrite (synchronize_table_no_source ok cok t st Hs).
Qed.

Lemma synchronize_table_other_tables_witness :
  assoc "u" (target_db (fst (synchronize_table accept_all create_all_ok "t"
                               (fresh_state [("t", users)] [("u", users)]))))
  = Some users.
Proof.
  apply (synchronize_table_other_tables accept_all create_all_ok "t"
           (fresh_state [("t", users)] [("u", users)]) "u").
  discriminate.
Defined.

(** ** A table already in sync *)







(** ** What an insert carries *)

Lemma map_eq_in {A B : Type} (f g : A -> B) l x :
  map f l = map g l -> In x l -> f x = g x.
Proof.
  induction l as [|a l IH]; simpl; [tauto|]. intros H [<-|Hx]; injection H as H1 H2; auto.
Qed.

Lemma primary_key_condition_columns tc sr pks cond :
  primary_key_condition tc sr pks = Ok cond -> forall c, In c pks -> has_column tc c = true.
Proof.
  revert cond. induction pks as [|c0 pks IH]; simpl; intros cond H c Hc; [contradiction|].
  destruct (has_column tc c0) eqn:Eh; simpl in H; [|discriminate].
  destruct (getattr sr c0); [|discriminate].
  destruct (primary_key_condition tc sr pks) as [rest|] eqn:Er; [|discriminate].
  destruct Hc as [<-|Hc]; [exact Eh|exact (IH rest eq_refl c Hc)].
Qed.

Lemma getattr_stored tc record c :
  has_column tc c = true ->
  getattr (map (fun col => (col_name col, match assoc (col_name col) record with
                                           | Some v => v | None => VNull end)) tc) c
  = Some (match assoc c record with Some v => v | None => VNull end).
Proof.
  unfold getattr, has_column. induction tc as [|col tc IH]; simpl; [discriminate|].
  destruct (String.eqb_spec c (col_name col)) as [->|Hne]; [reflexivity|].
  simpl. exact IH.
Qed.

(** X4 *)
(** When [sync_row] writes, it appends exactly one row, and that row holds
    the source row's values on every primary-key column (which the code
    also copies as ordinary columns). If the target already holds a row
    with that key (and the key has a column), the write happens only
    because an existing row with that key differs on some column, and the
    appended row repeats that row's key: the code never updates in place. *)
Theorem sync_row_insert_repeats_key ok t tc pks cols trs sr s s' trs' :
  incl pks cols ->
  sync_row ok t tc pks cols trs sr s = (s', Ok trs') -> trs' <> trs ->
  exists nr, trs' = trs ++ [nr] /\
    map (getattr nr) pks = map (getattr sr) pks /\
    (pks <> [] -> (exists er, In er trs /\ map (getattr er) pks = map (getattr sr) pks) ->
     exists er, In er trs /\ map (getattr er) pks = map (getattr nr) pks /\
                records_match sr er cols = Ok false).
Proof.
  intros Hi H Hne.
  destruct (sync_row_cases ok t tc pks cols trs sr s s' trs' H)
    as (cond & Ec & [(er & _ & _ & _ & ->)|(Hf & record & Hrec & ->)]); [congruence|].
  destruct (primary_key_condition_values _ _ _ _ Ec) as [Hfst Hp].
  pose proof (primary_key_condition_columns _ _ _ _ Ec) as Hcol.
  set (nr := map (fun col => (col_name col, match assoc (col_name col) record with
                                            | Some v => v | None => VNull end)) tc).
  assert (Hkey : map (getattr nr) pks = map (getattr sr) pks).
  { apply map_ext_in. intros c Hc. unfold nr. rewrite getattr_stored by exact (Hcol c Hc).
    rewrite (Hrec c (Hi c Hc)).
    assert (Hin : In c (map fst cond)) by (rewrite Hfst; exact Hc).
    apply in_map_iff in Hin as (p & <- & Hpin). rewrite (Hp p Hpin). reflexivity. }
  exists nr. split; [reflexivity|]. split; [exact Hkey|].
  intros Hpk (er & Her & Hk).
  assert (Hh : condition_holds cond er = true).
  { unfold condition_holds. apply forallb_forall. intros p Hpin.
    assert (Hc : In (fst p) pks) by (rewrite <- Hfst; now apply in_map).
    rewrite (map_eq_in _ _ _ _ Hk Hc), (Hp p Hpin). now apply value_eqb_eq. }
  destruct (find (condition_holds cond) trs) as [er0|] eqn:Ef.
  2:{ exfalso. rewrite (find_none _ _ Ef er Her) in Hh. discriminate. }
  destruct (find_some _ _ Ef) as [Hin0 Hh0].
  assert (Hne0 : er0 <> []).
  { intros ->. destruct cond as [|p cond]; [apply Hpk; now rewrite <- Hfst|].
    discriminate Hh0. }
  destruct Hf as [Hn|[Hn|(er1 & Hn & _ & Hm)]]; try rewrite Ef in Hn;
    [discriminate|injection Hn as ->; contradiction|injection Hn as <-].
  exists er0. split; [exact Hin0|]. split; [|exact Hm].
  rewrite Hkey. exact (condition_holds_key cond pks sr er0 Hfst Hp Hh0).
Qed.

Lemma sync_row_insert_repeats_key_witness :
  exists nr, [user_row 1 "old"; user_row 1 "new"] = [user_row 1 "old"] ++ [nr] /\
    map (getattr nr) ["id"] = map (getattr (user_row 1 "new")) ["id"] /\
    (["id"] <> [] ->
     (exists er, In er [user_row 1 "old"] /\
                 map (getattr er) ["id"] = map (getattr (user_row 1 "new")) ["id"]) ->
     exists er, In er [user_row 1 "old"] /\ map (getattr er) ["id"] = map (getattr nr) ["id"] /\
                records_match (user_row 1 "new") er ["id"; "name"] = Ok false).
Proof.
  apply (sync_row_insert_repeats_key accept_all "t" [c_id; c_name] ["id"] ["id"; "name"]
           [user_row 1 "old"] (user_row 1 "new") (fresh_state [] [])
           (fst (sync_row accept_all "t" [c_id; c_name] ["id"] ["id"; "name"]
                  [user_row 1 "old"] (user_row 1 "new") (fresh_state [] [])))).
  - intros x Hx. simpl in *. tauto.
  - vm_compute. reflexivity.
  - discriminate.
Defined.

(** ** A target table narrower than the source *)

Lemma has_column_false tc c : ~ In c (map col_name tc) -> has_column tc c = false.
Proof.
  intros H. destruct (has_column tc c) eqn:E; [|reflexivity]. exfalso. apply H.
  apply existsb_exists in E as (col & Hcol & Heq). apply String.eqb_eq in Heq. subst.
  now apply in_map.
Qed.

Lemma getattr_some_in r c : getattr r c <> None -> In c (map fst r).
Proof.
  unfold getattr. induction r as [|[k v] r IH]; simpl; [tauto|].
  destruct (String.eqb_spec c k) as [->|Hne]; auto.
Qed.

Lemma records_match_true_getattr sr er cols :
  records_match sr er cols = Ok true -> forall c, In c cols -> getattr er c <> None.
Proof.
  induction cols as [|c0 cols IH]; simpl; intros H c Hc; [contradiction|].
  destruct (getattr sr c0); [|discriminate].
  destruct (getattr er c0) as [b|] eqn:Eb; [|discriminate].
  destruct Hc as [<-|Hc]; [now rewrite Eb|].
  destruct (value_eqb _ b); [exact (IH H c Hc)|discriminate].
Qed.

Lemma insert_row_unknown_column ok t tc trs record :
  (exists p, In p record /\ has_column tc (fst p) = false) ->
  exists k, insert_row ok t tc trs record = Err (CompileError k).
Proof.
  intros (p & Hp & Hc). unfold insert_row.
  destruct (find (fun p => negb (has_column tc (fst p))) record) as [[k x]|] eqn:Ef.
  - now exists k.
  - exfalso. pose proof (find_none _ _ Ef p Hp) as H. simpl in H. rewrite Hc in H.
    discriminate.
Qed.

Lemma sync_row_narrow_fails ok t tc pks cols trs r s c :
  NoDup cols -> map fst r = cols -> In c cols -> has_column tc c = false ->
  Forall (fun x => map fst x = map col_name tc) trs ->
  exists e, snd (sync_row ok t tc pks cols trs r s) = Err e.
Proof.
  intros Hn Hr Hc Hh Hwf.
  assert (Hins : forall s0 (k0 : list row -> M (list row)),
             exists e, snd ((record <- lift (new_record r cols) ;;
                             trs' <- lift (insert_row ok t tc trs record) ;; k0 trs') s0)
                       = Err e).
  { intros s0 k0. unfold bind, lift. rewrite <- Hr, new_record_wf by (now rewrite Hr).
    destruct (insert_row_unknown_column ok t tc trs r) as [k ->].
    - rewrite <- Hr in Hc. apply in_map_iff in Hc as (p & <- & Hp). now exists p.
    - now exists (CompileError k). }
  unfold sync_row. unfold bind at 1, lift at 1.
  destruct (primary_key_condition tc r pks) as [cond|e]; [|now exists e].
  destruct (find (condition_holds cond) trs) as [[|p er]|] eqn:Ef; [apply Hins| |apply Hins].
  unfold bind at 1, lift at 1.
  destruct (records_match r (p :: er) cols) as [[|]|e] eqn:Em; [|apply Hins|now exists e].
  exfalso. apply find_some in Ef as [Hin _].
  rewrite Forall_forall in Hwf.
  pose proof (getattr_some_in _ _ (records_match_true_getattr _ _ _ Em c Hc)) as Hk.
  rewrite (Hwf _ Hin) in Hk. rewrite (has_column_in tc c Hk) in Hh. discriminate.
Qed.

(** X5 *)
(** Schema drift in one direction is fatal: when the target table exists
    but lacks a column of the source table, and the source table has rows
    (its first one well formed, target rows well formed), [synchronize_table]
    fails on the first source row (with an unknown-column error at the
    insert or a missing attribute at the comparison), whatever the stored
    rows, and commits nothing. The diff only warns about such a column. *)
Theorem synchronize_table_narrower_target_fails ok cok t ts tb st c r rest :
  assoc t (source_db st) = Some ts -> assoc t (target_db st) = Some tb ->
  tbl_rows ts = r :: rest ->
  NoDup (map col_name (tbl_columns ts)) -> map fst r = map col_name (tbl_columns ts) ->
  In c (map col_name (tbl_columns ts)) -> ~ In c (map col_name (tbl_columns tb)) ->
  Forall (fun x => map fst x = map col_name (tbl_columns tb)) (tbl_rows tb) ->
  (exists e, snd (synchronize_table ok cok t st) = Err e) /\
  target_db (fst (synchronize_table ok cok t st)) = target_db st.
Proof.
  intros Hs Ht Hrows Hn Hr Hc Hnc Hwf.
  assert (Hh : has_table (target_db st) t = true) by (unfold has_table; now rewrite Ht).
  rewrite (synchronize_table_run ok cok t ts st Hs (or_introl Hh)).
  assert (Hd2 : provisioned_db (target_db st) t (map reflect_column (tbl_columns ts))
                = target_db st)
    by (unfold provisioned_db; now rewrite Hh).
  rewrite Hd2.
  assert (Hcols : table_columns (target_db st) t = tbl_columns tb)
    by (unfold table_columns; now rewrite Ht).
  assert (Htr : table_rows (target_db st) t = tbl_rows tb)
    by (unfold table_rows; now rewrite Ht).
  rewrite Hcols, Htr, Hrows.
  set (s3 := mkState _ _ _ _ _).
  set (pks := map col_name (filter col_primary_key (tbl_columns ts))).
  set (cols := map col_name (tbl_columns ts)).
  set (tc := map reflect_column (tbl_columns tb)).
  assert (Hnc' : ~ In c (map col_name tc)) by (unfold tc; now rewrite map_col_name_reflected).
  assert (Hwf' : Forall (fun x => map fst x = map col_name tc) (tbl_rows tb))
    by (unfold tc; now rewrite map_col_name_reflected).
  assert (Hsr : sync_rows ok t tc pks cols (tbl_rows tb) (r :: rest) s3 =
                match sync_row ok t tc pks cols (tbl_rows tb) r s3 with
                | (s', Ok x) => sync_rows ok t tc pks cols x rest s'
                | (s', Err e) => (s', Err e)
                end) by reflexivity.
  rewrite Hsr.
  pose proof (sync_row_frame ok t tc pks cols (tbl_rows tb) r s3) as Hfr.
  destruct (sync_row_narrow_fails ok t tc pks cols (tbl_rows tb) r s3 c
              Hn Hr Hc (has_column_false _ _ Hnc') Hwf') as [e He].
  destruct (sync_row ok t tc pks cols (tbl_rows tb) r s3) as [s4 [x|e']];
    simpl in He; [discriminate|].
  injection He as ->. simpl. split; [now exists e|].
  destruct Hfr as (_ & Htg & _). simpl in Htg. exact Htg.
Qed.

Lemma synchronize_table_narrower_target_fails_witness :
  let src := mkTable [c_id; c_name; c_email]
                     [[("id", VInt 1); ("name", VStr "a"); ("email", VStr "a@x")]] in
  let st := fresh_state [("t", src)] [("t", users)] in
  (exists e, snd (synchronize_table accept_all create_all_ok "t" st) = Err e) /\
  target_db (fst (synchronize_table accept_all create_all_ok "t" st)) = target_db st.
Proof.
  intros src st.
  apply (synchronize_table_narrower_target_fails accept_all create_all_ok "t" src users st "email"
           [("id", VInt 1); ("name", VStr "a"); ("email", VStr "a@x")] []);
    try reflexivity.
  - repeat constructor; simpl; intuition discriminate.
  - simpl. tauto.
  - simpl. intuition discriminate.
  - repeat constructor.
Defined.

(** ** The diff is advisory *)

Lemma sync_row_value ok t tc pks cols trs r s s' :
  snd (sync_row ok t tc pks cols trs r s) = snd (sync_row ok t tc pks cols trs r s').
Proof.
  unfold sync_row, bind, lift, info, modify, ret. split_matches; reflexivity.
Qed.

Lemma sync_rows_value ok t tc pks cols trs rows s s' :
  snd (sync_rows ok t tc pks cols trs rows s) = snd (sync_rows ok t tc pks cols trs rows s').
Proof.
  revert trs s s'. induction rows as [|r rows IH]; intros trs s s'; simpl; [reflexivity|].
  unfold bind. pose proof (sync_row_value ok t tc pks cols trs r s s') as H.
  destruct (sync_row ok t tc pks cols trs r s) as [s1 [x|e]];
    destruct (sync_row ok t tc pks cols trs r s') as [s1' [x'|e']];
    simpl in H; try discriminate; [injection H as ->; apply IH|exact H].
Qed.

(** The commit step of [synchronize_table] reads only the target of the
    state it starts from. *)
Lemma commit_value ok t tc pks cols trs rows a b :
  target_db a = target_db b ->
  let F x := match sync_rows ok t tc pks cols trs rows x with
             | (s4, Ok trs') =>
                 (add_log (with_target s4 (set_rows t trs' (target_db s4))) (LogSynced t),
                  Ok tt)
             | (s4, Err e) => (add_log s4 (LogError t e), Err e)
             end in
  snd (F a) = snd (F b) /\ target_db (fst (F a)) = target_db (fst (F b)).
Proof.
  intros Hab F. unfold F.
  pose proof (sync_rows_value ok t tc pks cols trs rows a b) as Hv.
  pose proof (sync_rows_frame ok t tc pks cols trs rows a) as (_ & Ha & _).
  pose proof (sync_rows_frame ok t tc pks cols trs rows b) as (_ & Hb & _).
  destruct (sync_rows ok t tc pks cols trs rows a) as [sa [x|e]];
    destruct (sync_rows ok t tc pks cols trs rows b) as [sb [y|e']];
    simpl in *; try discriminate; injection Hv as ->; split; congruence.
Qed.

Lemma synchronize_table_value ok cok t s s' :
  source_db s' = source_db s -> target_db s' = target_db s ->
  snd (synchronize_table ok cok t s') = snd (synchronize_table ok cok t s) /\
  target_db (fst (synchronize_table ok cok t s')) = target_db (fst (synchronize_table ok cok t s)).
Proof.
  intros H1 H2. destruct (assoc t (source_db s)) as [ts|] eqn:Hs.
  - assert (Hs' : assoc t (source_db s') = Some ts) by now rewrite H1.
    destruct (provisioning_dec cok s t ts) as [Hp|[Hh Hc]].
    + assert (Hp' : has_table (target_db s') t = true \/
                    cok (target_db s') t (map copy_column (map reflect_column (tbl_columns ts)))
                    = true) by now rewrite H2.
      rewrite (synchronize_table_run ok cok t ts s Hs Hp),
        (synchronize_table_run ok cok t ts s' Hs' Hp').
      rewrite H1, H2. apply commit_value. reflexivity.
    + assert (Hh' : has_table (target_db s') t = false) by now rewrite H2.
      assert (Hc' : cok (target_db s') t (map copy_column (map reflect_column (tbl_columns ts)))
                    = false) by now rewrite H2.
      rewrite (synchronize_table_refused ok cok t ts s Hs Hh Hc),
        (synchronize_table_refused ok cok t ts s' Hs' Hh' Hc').
      simpl. split; [reflexivity|exact H2].
  - assert (Hs' : assoc t (source_db s') = None) by now rewrite H1.
    rewrite (synchronize_table_no_source ok cok t s Hs), (synchronize_table_no_source ok cok t s' Hs').
    simpl. split; [reflexivity|exact H2].
Qed.

(** X6 *)
(** When both databases have the table, the schema diff and its warning do
    not change what [process_table] does: it ends with the same result and
    the same target database as a direct [synchronize_table], whether or
    not the columns differ. A table is never skipped for a schema
    mismatch. *)
Theorem process_table_diff_advisory ok cok t ts tg st :
  assoc t (source_db st) = Some ts -> assoc t (target_db st) = Some tg ->
  snd (process_table ok cok t st) = snd (synchronize_table ok cok t st) /\
  target_db (fst (process_table ok cok t st)) = target_db (fst (synchronize_table ok cok t st)).
Proof.
  intros Hs Ht. unfold process_table, bind, info, modify. simpl.
  rewrite (get_table_differences_step (add_log st (LogStart t)) t). simpl.
  rewrite Hs, Ht. simpl.
  destruct (any_differences _); simpl; apply synchronize_table_value; reflexivity.
Qed.

Lemma process_table_diff_advisory_witness :
  let st := fresh_state [("t", users)] [("t", ex_users_email)] in
  snd (process_table accept_all create_all_ok "t" st) = snd (synchronize_table accept_all create_all_ok "t" st) /\
  target_db (fst (process_table accept_all create_all_ok "t" st))
  = target_db (fst (synchronize_table accept_all create_all_ok "t" st)).
Proof.
  intros st. apply (process_table_diff_advisory accept_all create_all_ok "t" users ex_users_email st);
    reflexivity.
Defined.

(** ** A failing run *)

Lemma synchronize_table_err_target ok cok t s e :
  has_table (target_db s) t = true -> snd (synchronize_table ok cok t s) = Err e ->
  target_db (fst (synchronize_table ok cok t s)) = target_db s.
Proof.
  intros Ht. destruct (assoc t (source_db s)) as [ts|] eqn:Hs.
  - rewrite (synchronize_table_run ok cok t ts s Hs (or_introl Ht)).
    match goal with
    | |- context [sync_rows ?a ?b ?c ?d ?e ?f ?g ?h] =>
        pose proof (sync_rows_frame a b c d e f g h) as (_ & Htg & _);
        destruct (sync_rows a b c d e f g h) as [s4 [trs|e']]
    end; simpl in *; [discriminate|].
    intros _. rewrite Htg. simpl. unfold provisioned_db. now rewrite Ht.
  - rewrite (synchronize_table_no_source ok cok t s Hs). reflexivity.
Qed.

Lemma process_table_err_target ok cok t st e :
  snd (process_table ok cok t st) = Err e ->
  target_db (fst (process_table ok cok t st)) = target_db st.
Proof.
  unfold process_table, bind, info, modify. simpl.
  rewrite (get_table_differences_step (add_log st (LogStart t)) t). simpl.
  destruct (assoc t (source_db st)) as [ts|] eqn:Hs;
    [destruct (assoc t (target_db st)) as [tg|] eqn:Ht|]; simpl; [|reflexivity..].
  assert (Hh : has_table (target_db st) t = true) by (unfold has_table; now rewrite Ht).
  destruct (any_differences _); simpl; intros He;
    (rewrite (synchronize_table_err_target ok cok t _ e); [reflexivity|exact Hh|exact He]).
Qed.

(** X7 *)
(** A failing [synchronize_tables] run leaves the target database exactly
    as the successful run over the tables before the failing one left it:
    the failing table contributes no committed row and no created table. *)
Theorem synchronize_tables_failure_target ok cok l st e :
  snd (synchronize_tables ok cok l st) = Err e ->
  exists k, k < length l /\
    snd (synchronize_tables ok cok (firstn k l) st) = Ok tt /\
    target_db (fst (synchronize_tables ok cok l st))
    = target_db (fst (synchronize_tables ok cok (firstn k l) st)).
Proof.
  intros He.
  destruct (proj2 (synchronize_tables_fail_fast ok cok l st) e He)
    as (k & st_k & Hk & Hpre & Hp & _).
  exists k. rewrite Hpre. split; [exact Hk|]. split; [reflexivity|]. simpl.
  assert (Herr : snd (process_table ok cok (nth k l "") st_k) = Err e) by now rewrite Hp.
  pose proof (process_table_err_target ok cok (nth k l "") st_k e Herr) as Ht.
  rewrite Hp in Ht. exact Ht.
Qed.

Lemma synchronize_tables_failure_target_witness :
  let st := fresh_state [("t", users); ("u", users)] [("t", mkTable [c_id; c_name] [])] in
  exists k, k < length ["t"; "u"] /\
    snd (synchronize_tables accept_all create_all_ok (firstn k ["t"; "u"]) st) = Ok tt /\
    target_db (fst (synchronize_tables accept_all create_all_ok ["t"; "u"] st))
    = target_db (fst (synchronize_tables accept_all create_all_ok (firstn k ["t"; "u"]) st)).
Proof.
  intros st. apply (synchronize_tables_failure_target accept_all create_all_ok ["t"; "u"] st
                      (NoSuchTableError "u")).
  vm_compute. reflexivity.
Defined.

(** ** Metadata *)

Lemma assoc_some_in {A : Type} k (d : list (string * A)) x :
  assoc k d = Some x -> In k (map fst d).
Proof.
  induction d as [|[m y] d IH]; simpl; [discriminate|].
  destruct (String.eqb_spec k m) as [->|_]; auto.
Qed.

Lemma names_set_rows t trs d : map fst (set_rows t trs d) = map fst d.
Proof.
  induction d as [|[m x] d IH]; simpl; [reflexivity|].
  destruct (String.eqb t m); simpl; [reflexivity|now rewrite IH].
Qed.

Lemma names_provisioned d t cols :
  incl (map fst d) (map fst (provisioned_db d t cols)) /\
  In t (map fst (provisioned_db d t cols)).
Proof.
  split.
  - unfold provisioned_db. destruct (has_table d t); [apply incl_refl|].
    rewrite map_app. apply incl_appl, incl_refl.
  - destruct (provisioned_db_assoc d t cols) as [tb H]. exact (assoc_some_in _ _ _ H).
Qed.

Lemma nodup_register n md : NoDup md -> NoDup (register n md).
Proof.
  intros H. unfold register. destruct (existsb (String.eqb n) md) eqn:E; [exact H|].
  apply (Permutation_NoDup (Permutation_cons_append md n)). constructor; [|exact H].
  intros Hin. assert (existsb (String.eqb n) md = true) as E'
    by (apply existsb_exists; exists n; split; [exact Hin|apply String.eqb_refl]).
  congruence.
Qed.

Lemma register_reflected_ok fuel d todo md :
  incl md (map fst d) -> NoDup md ->
  incl (register_reflected fuel d todo md) (map fst d) /\
  NoDup (register_reflected fuel d todo md).
Proof.
  revert todo md. induction fuel as [|f IH]; intros todo md Hi Hn; simpl; [now split|].
  destruct todo as [|n rest]; [now split|].
  destruct (existsb (String.eqb n) md) eqn:E; [now apply IH|].
  destruct (assoc n d) as [tb|] eqn:Ea; [|now apply IH].
  apply IH.
  - intros x Hx. apply in_app_or in Hx as [Hx|[<-|[]]]; [now apply Hi|].
    exact (assoc_some_in _ _ _ Ea).
  - pose proof (nodup_register n md Hn) as H. unfold register in H. now rewrite E in H.
Qed.

Lemma reflect_md_ok d name md :
  incl md (map fst d) -> NoDup md ->
  incl (reflect_md d name md) (map fst d) /\ NoDup (reflect_md d name md).
Proof. apply register_reflected_ok. Qed.

Lemma metadata_ok_stores s s' : same_stores s s' -> metadata_ok s -> metadata_ok s'.
Proof.
  intros (H1 & H2 & H3 & H4). unfold metadata_ok. now rewrite H1, H2, H3, H4.
Qed.

Lemma metadata_ok_reflect_source s t :
  metadata_ok s ->
  metadata_ok (mkState (source_db s) (target_db s) (reflect_md (source_db s) t (source_metadata s))
                       (target_metadata s) (log s)).
Proof.
  intros (H1 & H2 & H3 & H4). destruct (reflect_md_ok (source_db s) t _ H1 H3).
  unfold metadata_ok; simpl. now repeat split.
Qed.

Lemma metadata_ok_reflect s t :
  metadata_ok s ->
  metadata_ok (mkState (source_db s) (target_db s) (reflect_md (source_db s) t (source_metadata s))
                       (reflect_md (target_db s) t (target_metadata s)) (log s)).
Proof.
  intros (H1 & H2 & H3 & H4).
  destruct (reflect_md_ok (source_db s) t _ H1 H3).
  destruct (reflect_md_ok (target_db s) t _ H2 H4).
  unfold metadata_ok; simpl. now repeat split.
Qed.

Lemma metadata_ok_provision s t cols :
  metadata_ok s -> metadata_ok (with_target s (provisioned_db (target_db s) t cols)).
Proof.
  intros (H1 & H2 & H3 & H4). unfold metadata_ok; simpl.
  repeat split; auto. eapply incl_tran; [exact H2|apply names_provisioned].
Qed.

Lemma metadata_ok_set_rows s t trs :
  metadata_ok s -> metadata_ok (with_target s (set_rows t trs (target_db s))).
Proof. unfold metadata_ok; simpl. now rewrite names_set_rows. Qed.

Lemma metadata_ok_log s e : metadata_ok s -> metadata_ok (add_log s e).
Proof. exact (fun H => H). Qed.

Lemma synchronize_table_metadata ok cok t s :
  metadata_ok s -> metadata_ok (fst (synchronize_table ok cok t s)).
Proof.
  intros H. destruct (assoc t (source_db s)) as [ts|] eqn:Hs.
  - destruct (provisioning_dec cok s t ts) as [Hp|[Hh Hc]].
    2:{ rewrite (synchronize_table_refused ok cok t ts s Hs Hh Hc). simpl.
        apply metadata_ok_log, (metadata_ok_reflect_source s t H). }
    set (d2 := provisioned_db (target_db s) t (map reflect_column (tbl_columns ts))).
    assert (H3 : metadata_ok (mkState (source_db s) d2
                   (reflect_md (source_db s) t (source_metadata s))
                   (reflect_md d2 t (target_metadata s)) (log s))).
    { apply (metadata_ok_reflect (with_target s d2) t).
      now apply metadata_ok_provision. }
    rewrite (synchronize_table_run ok cok t ts s Hs Hp). fold d2.
    match goal with
    | |- context [sync_rows ?a ?b ?c ?d ?e ?f ?g ?h] =>
        pose proof (metadata_ok_stores _ _ (sync_rows_frame a b c d e f g h) H3) as H4;
        destruct (sync_rows a b c d e f g h) as [s4 [trs|e']]
    end; simpl in *.
    + exact (metadata_ok_set_rows s4 t trs H4).
    + exact H4.
  - rewrite (synchronize_table_no_source ok cok t s Hs). exact H.
Qed.

Lemma process_table_metadata ok cok t st :
  metadata_ok st -> metadata_ok (fst (process_table ok cok t st)).
Proof.
  intros H. unfold process_table, bind, info, modify. simpl.
  rewrite (get_table_differences_step (add_log st (LogStart t)) t). simpl.
  destruct (assoc t (source_db st)) as [ts|] eqn:Hs;
    [destruct (assoc t (target_db st)) as [tg|] eqn:Ht|]; simpl.
  - assert (H' : metadata_ok (mkState (source_db st) (target_db st)
                   (reflect_md (source_db st) t (source_metadata st))
                   (reflect_md (target_db st) t (target_metadata st))
                   (log st ++ [LogStart t]))).
    { exact (metadata_ok_reflect st t H). }
    destruct (any_differences _); simpl; apply synchronize_table_metadata; exact H'.
  - exact (metadata_ok_reflect_source st t H).
  - exact H.
Qed.

Lemma synchronize_tables_metadata ok cok l st :
  metadata_ok st -> metadata_ok (fst (synchronize_tables ok cok l st)).
Proof.
  revert st. induction l as [|t l IH]; intros st H; simpl; [exact H|].
  unfold bind. pose proof (process_table_metadata ok cok t st H) as H1.
  destruct (process_table ok cok t st) as [s1 [u|e]]; simpl in *; [apply IH|]; exact H1.
Qed.

Lemma nodup_fold_register ns md :
  NoDup md -> NoDup (fold_left (fun md n => register n md) ns md).
Proof.
  revert md. induction ns as [|n ns IH]; intros md H; simpl; [exact H|].
  apply IH, nodup_register, H.
Qed.

(** X8 *)
(** [synchronize_database] keeps the metadata collections consistent:
    if each names only tables of its own database, each name once, the
    same holds after any run, with or without a table list, whatever its
    outcome. *)
Theorem synchronize_database_metadata_ok ok cok tables st :
  metadata_ok st -> metadata_ok (fst (synchronize_database ok cok tables st)).
Proof.
  intros H. destruct tables as [l|]; simpl; [now apply synchronize_tables_metadata|].
  unfold bind, reflect_all. simpl. apply synchronize_tables_metadata.
  destruct H as (H1 & H2 & H3 & H4). unfold metadata_ok; simpl.
  repeat split; auto using nodup_fold_register.
  intros x Hx. apply in_reflect_all in Hx as [Hx|Hx]; auto.
Qed.

Lemma synchronize_database_metadata_ok_witness :
  metadata_ok (fst (synchronize_database accept_all create_all_ok None
                      (fresh_state [("t", users); ("u", users)] [("t", users)]))).
Proof.
  apply synchronize_database_metadata_ok.
  unfold metadata_ok; simpl. repeat split; try (intros x []); constructor.
Defined.

(** ** The log accounts for every row written *)

Lemma row_writes_app l1 l2 : row_writes (l1 ++ l2) = row_writes l1 + row_writes l2.
Proof. unfold row_writes. now rewrite filter_app, length_app. Qed.

Lemma insert_row_length ok t tc trs record trs' :
  insert_row ok t tc trs record = Ok trs' -> length trs' = S (length trs).
Proof.
  unfold insert_row. destruct (find _ record) as [[k x]|]; [discriminate|].
  destruct (ok tc trs _); [|discriminate]. intros [= <-].
  rewrite length_app. simpl. lia.
Qed.

Lemma sync_row_log ok t tc pks cols trs r s s' trs' :
  sync_row ok t tc pks cols trs r s = (s', Ok trs') ->
  row_writes (log s') + length trs = row_writes (log s) + length trs'.
Proof.
  unfold sync_row, bind, lift, info, modify, ret.
  destruct (primary_key_condition tc r pks) as [cond|e]; [|discriminate].
  assert (Hins : forall rec e,
    match insert_row ok t tc trs rec with
    | Ok a => (add_log s e, Ok a)
    | Err e0 => (s, Err e0)
    end = (s', Ok trs') ->
    match e with LogRowDiffers _ | LogRowAdded _ => True | _ => False end ->
    row_writes (log s') + length trs = row_writes (log s) + length trs').
  { intros rec e H He. destruct (insert_row ok t tc trs rec) as [x|] eqn:Ei; [|discriminate].
    injection H as <- <-. rewrite (insert_row_length _ _ _ _ _ _ Ei). simpl.
    rewrite row_writes_app. destruct e; try contradiction; change (row_writes [_]) with 1; lia. }
  destruct (find (condition_holds cond) trs) as [[|p er]|].
  - destruct (new_record r cols) as [rec|]; [|discriminate].
    intros H. exact (Hins rec _ H I).
  - destruct (records_match r (p :: er) cols) as [[|]|];
      [intros [= <- <-]; reflexivity| |discriminate].
    destruct (new_record r cols) as [rec|]; [|discriminate].
    intros H. exact (Hins rec _ H I).
  - destruct (new_record r cols) as [rec|]; [|discriminate].
    intros H. exact (Hins rec _ H I).
Qed.

Lemma sync_rows_log ok t tc pks cols trs rows s s' trs' :
  sync_rows ok t tc pks cols trs rows s = (s', Ok trs') ->
  row_writes (log s') + length trs = row_writes (log s) + length trs'.
Proof.
  revert trs s. induction rows as [|r rows IH]; intros trs s; simpl.
  - intros [= <- <-]. reflexivity.
  - unfold bind. destruct (sync_row ok t tc pks cols trs r s) as [s1 [x|e]] eqn:E1;
      [|discriminate].
    intros H. pose proof (sync_row_log _ _ _ _ _ _ _ _ _ _ E1). specialize (IH x s1 H). lia.
Qed.

(** X9 *)
(** On success, the log of [synchronize_table] reports exactly as many
    row writes (a row added, or a row that differed) as rows were appended
    to the table: each insert is logged once, and nothing is logged for a
    source row that matched. *)
Theorem synchronize_table_logs_each_write ok cok t st :
  snd (synchronize_table ok cok t st) = Ok tt ->
  row_writes (log (fst (synchronize_table ok cok t st))) + length (table_rows (target_db st) t)
  = row_writes (log st) + length (table_rows (target_db (fst (synchronize_table ok cok t st))) t).
Proof.
  destruct (assoc t (source_db st)) as [ts|] eqn:Hs;
    [|rewrite (synchronize_table_no_source ok cok t st Hs); discriminate].
  destruct (provisioning_dec cok st t ts) as [Hp|[Hh Hc]].
  2:{ now rewrite (synchronize_table_refused ok cok t ts st Hs Hh Hc). }
  rewrite (synchronize_table_run ok cok t ts st Hs Hp).
  destruct (provisioned_db_assoc (target_db st) t (map reflect_column (tbl_columns ts)))
    as [tb Htb].
  rewrite <- (table_rows_provisioned (target_db st) t (map reflect_column (tbl_columns ts))).
  match goal with
  | |- context [sync_rows ?a ?b ?c ?d ?e ?f ?g ?h] =>
      pose proof (sync_rows_frame a b c d e f g h) as (_ & Htg & _);
      pose proof (sync_rows_log a b c d e f g h) as Hl;
      destruct (sync_rows a b c d e f g h) as [s4 [trs|e']]
  end; simpl in *; [|discriminate].
  intros _. rewrite row_writes_app, Htg, table_rows_set_rows by congruence.
  specialize (Hl _ _ eq_refl). change (row_writes [LogSynced t]) with 0. lia.
Qed.

Lemma synchronize_table_logs_each_write_witness :
  let st := fresh_state [("t", users)] [("t", mkTable [c_id; c_name] [user_row 1 "x"])] in
  row_writes (log (fst (synchronize_table accept_all create_all_ok "t" st)))
  + length (table_rows (target_db st) "t")
  = row_writes (log st) + length (table_rows (target_db (fst (synchronize_table accept_all create_all_ok "t" st))) "t").
Proof.
  intros st. apply synchronize_table_logs_each_write. vm_compute. reflexivity.
Defined.

(** X10 *)
(** A source table without rows synchronises successfully whenever the
    target has the table or accepts its creation: the target table (created
    empty if missing) keeps its rows, whatever its columns, and the log
    reports no row write. If the target lacks the table and refuses to
    create it, the call fails with that error, logged, and the target is
    unchanged. *)
Theorem synchronize_table_empty_source ok cok t ts st :
  assoc t (source_db st) = Some ts -> tbl_rows ts = [] ->
  (has_table (target_db st) t = true \/
   cok (target_db st) t (map copy_column (map reflect_column (tbl_columns ts))) = true ->
   snd (synchronize_table ok cok t st) = Ok tt /\
   table_rows (target_db (fst (synchronize_table ok cok t st))) t = table_rows (target_db st) t /\
   log (fst (synchronize_table ok cok t st)) = log st ++ [LogSynced t]) /\
  (has_table (target_db st) t = false ->
   cok (target_db st) t (map copy_column (map reflect_column (tbl_columns ts))) = false ->
   snd (synchronize_table ok cok t st) = Err (ProgrammingError t) /\
   target_db (fst (synchronize_table ok cok t st)) = target_db st /\
   log (fst (synchronize_table ok cok t st)) = log st ++ [LogError t (ProgrammingError t)]).
Proof.
  intros Hs Hr. split.
  - intros Hp. rewrite (synchronize_table_run ok cok t ts st Hs Hp), Hr. simpl.
    destruct (provisioned_db_assoc (target_db st) t (map reflect_column (tbl_columns ts)))
      as [tb Htb].
    split; [reflexivity|]. split; [|reflexivity].
    rewrite table_rows_set_rows by congruence. apply table_rows_provisioned.
  - intros Hh Hc. rewrite (synchronize_table_refused ok cok t ts st Hs Hh Hc).
    now repeat split.
Qed.

Lemma synchronize_table_empty_source_witness :
  let st := fresh_state [("t", ex_users_email)] [("t", users)] in
  snd (synchronize_table reject_all create_refused "t" st) = Ok tt /\
  table_rows (target_db (fst (synchronize_table reject_all create_refused "t" st))) "t"
  = table_rows (target_db st) "t" /\
  log (fst (synchronize_table reject_all create_refused "t" st)) = log st ++ [LogSynced "t"].
Proof.
  intros st. apply (proj1 (synchronize_table_empty_source reject_all create_refused "t"
                             ex_users_email st eq_refl eq_refl)).
  left. reflexivity.
Defined.
